(** * NNStreamer sub-plugins: flatbuffers tensor converter and ExecuTorch tensor filter

    A shallow embedding of

    - [ext/nnstreamer/tensor_converter/tensor_converter_flatbuf.cc]
      (module [Flatbuf]: [fbc_convert]), and
    - [ext/nnstreamer/tensor_filter/tensor_filter_executorch.cc]
      (module [Executorch]: the class [executorch_subplugin] with [cleanup],
      [configure_instance], [invoke] and its constructor and destructor),

    followed by the properties of the plug-in contract that hold, or fail, on
    that code.

    Conventions.  C integers are [Z]; a conversion that wraps is written out
    ([to_guint]).  A pointer that may be [NULL] is an [option].  Calls into
    the host (GStreamer, GLib) and into the ExecuTorch runtime are recorded,
    in program order, in a list of calls, so that "this was never called" and
    "this was called before that" are statements about lists. *)

From Stdlib Require Import ZArith Lia List String Ascii.
From stdpp Require Import base tactics option list gmap strings.

Local Open Scope Z_scope.

(** ** Tensor metadata shared by both sub-plugins *)

(** [guint] is a 32-bit unsigned integer: storing a wider or a signed value
    keeps it modulo [2^32]. *)
Definition to_guint (z : Z) : Z := z mod 2 ^ 32.

(** [GstTensorInfo]: one tensor's name (NULL when unnamed), element type and
    dimension array. *)
Record GstTensorInfo : Type := {
  name : option string;
  type : Z;
  dimension : list Z
}.

(** [GstTensorsInfo].  The fixed array [info[]] and its lazily allocated
    extension are one table indexed by tensor position; a position that was
    never written holds no entry. *)
Record GstTensorsInfo : Type := {
  num_tensors : Z;
  format : Z;
  nth_info : gmap nat GstTensorInfo
}.

(** [GstTensorsConfig]: the descriptor the converter fills in for its caller. *)
Record GstTensorsConfig : Type := {
  info : GstTensorsInfo;
  rate_n : Z;
  rate_d : Z
}.

(** Modelled from the spec: [gst_tensors_info_init] (nnstreamer_plugin_api_util,
    not under src/) resets a tensor set to "no tensors, static format, no
    shape metadata". *)
Definition gst_tensors_info_init : GstTensorsInfo :=
  {| num_tensors := 0; format := 0; nth_info := ∅ |}.

(** * The flatbuffers converter *)
Module Flatbuf.

(** The envelope as the accessors generated by [flatc]
    ([nnstreamer_generated.h]) read it out of the mapped bytes.  The accessors
    do not verify the buffer: a sub-table or vector that is absent reads as a
    NULL pointer ([None]); a vector's position and length are whatever the
    bytes declare. *)
Module fbs.

Record frame_rate : Type := { rate_n : Z; rate_d : Z }.

(** A [[ubyte]] vector: where its first element lies, as a distance in
    bytes from the first byte of the mapped envelope, and its declared
    length. *)
Record Vector : Type := { data : Z; size : Z }.

Record Tensor : Type := {
  name : option string;
  type : Z;
  dimension : option (list Z);
  tensor_data : option Vector
}.

(** The root table.  A [tensor] vector that is absent reads like an empty
    one: every [Get] on it is out of range. *)
Record Tensors : Type := {
  num_tensor : Z;
  fr : option frame_rate;
  tensor : list Tensor;
  format : Z
}.

End fbs.

(** ** Host buffers *)

(** A source memory block: its identity, its size in bytes, whether
    [gst_memory_map] succeeds on it, the address [in_info.data] at which the
    mapping then shows its first byte, and the envelope [GetTensors] finds in
    its bytes. *)
Record GstMemory : Type := {
  mem_id : nat;
  mem_size : Z;
  mappable : bool;
  mapped_at : Z;
  GetTensors : fbs.Tensors
}.

(** The memory [gst_memory_share parent offset size] returns: no bytes of its
    own, a window on [parent]. *)
Record SharedMemory : Type := {
  parent : GstMemory;
  offset : Z;
  length : Z
}.

(** Timestamps and the like, which [gst_buffer_copy_into] with
    [GST_BUFFER_COPY_METADATA] carries over. *)
Record GstMetadata : Type := { pts : Z; dts : Z; duration : Z }.

Definition GST_CLOCK_TIME_NONE : Z := 2 ^ 64 - 1.

Record GstBuffer (M : Type) : Type := {
  memory : list M;
  metadata : GstMetadata
}.
Arguments memory {M} _.
Arguments metadata {M} _.

Definition gst_buffer_new : GstBuffer SharedMemory :=
  {| memory := [];
     metadata := {| pts := GST_CLOCK_TIME_NONE; dts := GST_CLOCK_TIME_NONE;
                    duration := GST_CLOCK_TIME_NONE |} |}.

Definition gst_buffer_peek_memory (b : GstBuffer GstMemory) (idx : nat)
  : option GstMemory := memory b !! idx.

(** The appended block becomes the last memory of the buffer.  (A host
    buffer holds a bounded number of blocks and merges blocks beyond that;
    the merge is not modelled, the list is the sequence of appended
    blocks.) *)
Definition gst_buffer_append_memory (b : GstBuffer SharedMemory)
    (m : SharedMemory) : GstBuffer SharedMemory :=
  {| memory := memory b ++ [m]; metadata := metadata b |}.

Definition gst_buffer_copy_into (dest : GstBuffer SharedMemory)
    (src : GstBuffer GstMemory) : GstBuffer SharedMemory :=
  {| memory := memory dest; metadata := metadata src |}.

(** The calls [fbc_convert] makes into the host, in the order it makes them. *)
Inductive host_call : Type :=
| loge (msg : string)
| gst_memory_map (m : nat)
| gst_memory_unmap (m : nat)
| call_buffer_new
| g_free_name (i : nat)
| gst_memory_share (m : nat) (off len : Z)
| call_append_memory
| call_copy_into.

(** ** Outcomes *)

(** What a run leaves behind when it returns: the returned buffer (NULL or
    not), the caller's config as the run left it, and the host calls made. *)
Record returned : Type := {
  out_buf : option (GstBuffer SharedMemory);
  config : option GstTensorsConfig;
  calls : list host_call
}.

(** A run that faults instead of returning: a NULL pointer was dereferenced,
    or a flatbuffers vector was indexed past its end (on which [Get]
    asserts). *)
Inductive fault : Type := null_dereference | index_out_of_range.

Inductive outcome (A : Type) : Type :=
| Done (a : A)
| Fault (f : fault).
Arguments Done {A} _.
Arguments Fault {A} _.

Definition bind {A B} (m : outcome A) (k : A -> outcome B) : outcome B :=
  match m with
  | Done a => k a
  | Fault f => Fault f
  end.

Definition deref {A} (p : option A) : outcome A :=
  match p with
  | Some a => Done a
  | None => Fault null_dereference
  end.

Definition Get {A} (v : list A) (i : nat) : outcome A :=
  match v !! i with
  | Some a => Done a
  | None => Fault index_out_of_range
  end.

#[global] Instance outcome_bind : MBind outcome := fun A B k m => bind m k.

(** ** Strings *)

(** [c_str] followed by [strlen] and [g_strdup]: a C string ends at its first
    NUL character. *)
Fixpoint c_str (s : string) : string :=
  match s with
  | EmptyString => EmptyString
  | String c r => if Ascii.eqb c Ascii.zero then EmptyString else String c (c_str r)
  end.

(** [(name && strlen (name) > 0) ? g_strdup (name) : NULL] *)
Definition strdup_nonempty (s : string) : option string :=
  match c_str s with
  | EmptyString => None
  | n => Some n
  end.

(** [VectorLength]: the length of a vector, 0 for a NULL one. *)
Definition VectorLength (v : option fbs.Vector) : Z :=
  match v with
  | Some d => fbs.size d
  | None => 0
  end.

(** [sizeof (uoffset_t)]: the length field in front of a vector's elements. *)
Definition sizeof_uoffset_t : Z := 4.

(** [tensor_data->data () - in_info.data] (line 125).  [data ()] reads
    nothing: it is the address of the vector plus the width of its length
    field.  For a vector inside the mapping the difference is the distance
    the bytes declare; for a NULL vector [data ()] is the address
    [sizeof_uoffset_t] and the difference is taken from there, a negative
    [gssize]. *)
Definition data_offset (in_mem : GstMemory) (v : option fbs.Vector) : Z :=
  match v with
  | Some d => fbs.data d
  | None => sizeof_uoffset_t - mapped_at in_mem
  end.

Section Converter.

(** The limits declared in [tensor_typedef.h]: the largest number of tensors
    in a set, and the number of dimension slots of a tensor. *)
Variable NNS_TENSOR_SIZE_LIMIT : Z.
Variable NNS_TENSOR_RANK_LIMIT : nat.

(** The state the loop of [fbc_convert] works on. *)
Record loop_state : Type := {
  ls_config : GstTensorsConfig;
  ls_out : GstBuffer SharedMemory;
  ls_calls : list host_call
}.

(** Modelled from the spec: [gst_tensors_info_get_nth_info]
    (nnstreamer_plugin_api_util, not under src/).  A tensor set has room for
    [NNS_TENSOR_SIZE_LIMIT] descriptors: [_info = gst_tensors_info_get_nth_info
    (&config->info, i)] is the [i]-th of them, and NULL from position
    [NNS_TENSOR_SIZE_LIMIT] on; the loop body then writes through [_info]. *)
Definition gst_tensors_info_get_nth_info (i : nat) : outcome nat :=
  if Z.of_nat i <? NNS_TENSOR_SIZE_LIMIT then Done i
  else Fault null_dereference.

Definition set_nth_info (c : GstTensorsConfig) (i : nat) (x : GstTensorInfo)
  : GstTensorsConfig :=
  {| info := {| num_tensors := num_tensors (info c);
                format := format (info c);
                nth_info := <[i := x]> (nth_info (info c)) |};
     rate_n := rate_n c;
     rate_d := rate_d c |}.

(** The inner loop: [_info->dimension[j] = ...->dimension ()->Get (j)] for
    every [j] below the rank limit. *)
Definition read_dimension (dims : list Z) : outcome (list Z) :=
  if decide (NNS_TENSOR_RANK_LIMIT <= List.length dims)%nat
  then Done (take NNS_TENSOR_RANK_LIMIT dims)
  else Fault index_out_of_range.

(** One turn of the loop over the tensors (lines 109-129).  The name and the
    dimension vector are read through ([->str ()], [->Get (j)]); the data
    vector is only measured and located, which dereferences nothing. *)
Definition convert_tensor (in_mem : GstMemory) (ts : list fbs.Tensor)
    (i : nat) (s : loop_state) : outcome loop_state :=
  t ← Get ts i;
  _name ← deref (fbs.name t);
  slot ← gst_tensors_info_get_nth_info i;
  dimv ← deref (fbs.dimension t);
  dims ← read_dimension dimv;
  let tensor_data := fbs.tensor_data t in
  let mem_size := VectorLength tensor_data in
  let offset := data_offset in_mem tensor_data in
  let out_mem := {| parent := in_mem; offset := offset; length := mem_size |} in
  Done {| ls_config :=
            set_nth_info (ls_config s) slot
              {| name := strdup_nonempty _name;
                 type := fbs.type t;
                 dimension := dims |};
          ls_out := gst_buffer_append_memory (ls_out s) out_mem;
          ls_calls := ls_calls s ++
                      [g_free_name slot;
                       gst_memory_share (mem_id in_mem) offset mem_size;
                       call_append_memory] |}.

(** [for (guint i = 0; i < config->info.num_tensors; i++)]: [todo] turns
    are left, the next one is turn [i]. *)
Fixpoint convert_loop (in_mem : GstMemory) (ts : list fbs.Tensor)
    (todo : nat) (i : nat) (s : loop_state) : outcome loop_state :=
  match todo with
  | O => Done s
  | S todo' =>
      s' ← convert_tensor in_mem ts i s;
      convert_loop in_mem ts todo' (S i) s'
  end.

Definition fbc_convert (in_buf : option (GstBuffer GstMemory))
    (config : option GstTensorsConfig) : outcome returned :=
  match in_buf, config with
  | Some b, Some c =>
      match gst_buffer_peek_memory b 0 with
      | None =>
          (* gst_memory_map refuses a NULL memory *)
          Done {| out_buf := None; config := Some c;
                  calls := [loge "Cannot map input memory / tensor_converter::flatbuf"] |}
      | Some in_mem =>
          if negb (mappable in_mem) then
            Done {| out_buf := None; config := Some c;
                    calls := [gst_memory_map (mem_id in_mem);
                              loge "Cannot map input memory / tensor_converter::flatbuf"] |}
          else
            (* g_assert (tensors) holds: GetTensors of a mapped address is an
               address inside the mapping *)
            let tensors := GetTensors in_mem in
            let c1 :=
              {| info := {| num_tensors := to_guint (fbs.num_tensor tensors);
                            format := fbs.format tensors;
                            nth_info := nth_info (info c) |};
                 rate_n := rate_n c;
                 rate_d := rate_d c |} in
            if fbs.num_tensor tensors >? NNS_TENSOR_SIZE_LIMIT then
              (* goto done *)
              Done {| out_buf := None; config := Some c1;
                      calls := [gst_memory_map (mem_id in_mem);
                                loge "The number of tensors is limited";
                                gst_memory_unmap (mem_id in_mem)] |}
            else
              (fr ← deref (fbs.fr tensors);
              let c2 := {| info := info c1;
                           rate_n := fbs.rate_n fr;
                           rate_d := fbs.rate_d fr |} in
              s ← convert_loop in_mem (fbs.tensor tensors)
                     (Z.to_nat (num_tensors (info c2))) 0%nat
                     {| ls_config := c2;
                        ls_out := gst_buffer_new;
                        ls_calls := [gst_memory_map (mem_id in_mem);
                                     call_buffer_new] |};
              Done {| out_buf := Some (gst_buffer_copy_into (ls_out s) b);
                      config := Some (ls_config s);
                      calls := ls_calls s ++
                               [call_copy_into;
                                gst_memory_unmap (mem_id in_mem)] |})
      end
  | _, _ =>
      Done {| out_buf := None; config := config;
              calls := [loge "NULL parameter is passed to tensor_converter::flatbuf"] |}
  end.

End Converter.

End Flatbuf.

(** * The ExecuTorch filter *)
Module Executorch.

(** ** The ExecuTorch runtime, as far as the sub-plugin talks to it *)

(** [torch::executor::Error]: [Ok], or an error code. *)
Inductive Error : Type := Ok | Failed (code : Z).

Definition is_Ok (e : Error) : bool :=
  match e with Ok => true | Failed _ => false end.

(** [Result<T>]: a value, or an error. *)
Inductive Result (T : Type) : Type :=
| value (v : T)
| error (e : Error).
Arguments value {T} _.
Arguments error {T} _.

Definition ok {T} (r : Result T) : bool :=
  match r with value _ => true | error _ => false end.

(** [size_t] is 64 bits wide; [static_cast<size_t>] of the [int64_t] the
    engine reports keeps it modulo [2^64]. *)
Definition to_size_t (z : Z) : Z := z mod 2 ^ 64.

(** [MethodMeta]: the sizes of the memory-planned buffers, by buffer id. *)
Record MethodMeta : Type := { memory_planned_buffer_size : list Z }.

Definition num_memory_planned_buffers (m : MethodMeta) : nat :=
  List.length (memory_planned_buffer_size m).

(** A parsed program: the name of its first method, the metadata of a method,
    and the status with which loading a method ends. *)
Record Program : Type := {
  get_method_name : Result string;
  method_meta : string -> Result MethodMeta;
  load_method : string -> Error
}.

(** [Span<uint8_t>]: the array it points into, and a length. *)
Record Span : Type := { span_array : nat; span_size : Z }.

(** A loaded [Method]: which program file and method it came from, and the
    planned-memory spans its memory manager was built on. *)
Record Method : Type := {
  of_program : string;
  of_method : string;
  planned_memory : list Span
}.

(** What the instance does not decide: which paths are regular files,
    whether a [FileDataLoader] opens a path, what [Program::load] makes of
    it, and whether the free store, holding the arrays [alive] (identity and
    size), yields another array of [sz] bytes to [new uint8_t[sz]]. *)
Record Runtime : Type := {
  g_file_test : string -> bool;
  FileDataLoader_from : string -> Error;
  Program_load : string -> Result Program;
  new_array : forall (alive : list (nat * Z)) (sz : Z), bool
}.

(** The engine's answers during one [invoke]. *)
Record Engine : Type := {
  set_input : nat -> Error;
  execute : Error;
  set_output_data_ptr : nat -> Error
}.

(** ** The instance *)

Record GstTensorFilterProperties : Type := { model_files : list string }.

Record GstTensorMemory : Type := { data : Z; size : Z }.

(** The data members of [class executorch_subplugin].  [method] is the
    [unique_ptr]: [None] while it owns nothing. *)
Record executorch_subplugin : Type := {
  configured : bool;
  model_path : option string;
  inputInfo : GstTensorsInfo;
  outputInfo : GstTensorsInfo;
  method : option (Result Method);
  method_name : option string
}.

(** Calls that acquire, release or drive a resource, in program order. *)
Inductive call : Type :=
| g_free (p : option string)
| gst_tensors_info_free
| g_strdup (p : string)
| call_FileDataLoader_from (p : string)
| call_Program_load (p : string)
| make_unique_array (id : nat) (sz : Z)
| delete_array (id : nat)
| call_load_method (nm : string)
| delete_method (m : Result Method)
| call_set_input (i : nat) (d : Z) (ty : option Z)
| call_execute
| call_get_output (i : nat)
| call_set_output_data_ptr (i : nat) (d : Z).

(** The instance together with the free store: the [uint8_t] arrays alive,
    with their sizes; the next fresh array identity; the calls so far. *)
Record state : Type := {
  this : executorch_subplugin;
  arrays : list (nat * Z);
  fresh : nat;
  calls : list call
}.

(** The exceptions that are thrown here; all derive from [std::exception]. *)
Inductive exception : Type :=
| invalid_argument (what : string)
| runtime_error (what : string)
| bad_alloc.

(** How a member function ends: it returns, it throws, the process is
    aborted, or it runs into undefined behaviour (a NULL [unique_ptr]
    dereferenced, an array read past its end). *)
Inductive outcome (A : Type) : Type :=
| Returns (a : A) (s : state)
| Throws (e : exception) (s : state)
| Aborts (s : state)
| Undefined.
Arguments Returns {A} _ _.
Arguments Throws {A} _ _.
Arguments Aborts {A} _.
Arguments Undefined {A}.

Definition M (A : Type) : Type := state -> outcome A.

#[global] Instance M_ret : MRet M := fun A a s => Returns a s.

#[global] Instance M_bind : MBind M := fun A B k m s =>
  match m s with
  | Returns a s' => k a s'
  | Throws e s' => Throws e s'
  | Aborts s' => Aborts s'
  | Undefined => Undefined
  end.

Definition throw {A} (e : exception) : M A := fun s => Throws e s.
Definition abort {A} : M A := fun s => Aborts s.
Definition undefined {A} : M A := fun _ => Undefined.

(** [try { body } catch (const std::exception &e) { handler }] *)
Definition try_catch {A} (body : M A) (handler : exception -> M A) : M A :=
  fun s =>
    match body s with
    | Throws e s' => handler e s'
    | o => o
    end.

Definition get_this : M executorch_subplugin := fun s => Returns (this s) s.

Definition modify_this (f : executorch_subplugin -> executorch_subplugin) : M unit :=
  fun s => Returns tt {| this := f (this s); arrays := arrays s;
                         fresh := fresh s; calls := calls s |}.

Definition record (c : call) : M unit :=
  fun s => Returns tt {| this := this s; arrays := arrays s;
                         fresh := fresh s; calls := calls s ++ [c] |}.

(** [std::make_unique<uint8_t[]> (sz)]: a new array of [sz] bytes, or
    [std::bad_alloc] when the free store does not yield one ([available]
    tells which). *)
Definition make_unique (available : list (nat * Z) -> Z -> bool) (sz : Z)
  : M nat :=
  fun s =>
    if available (arrays s) sz then
      Returns (fresh s)
        {| this := this s; arrays := arrays s ++ [(fresh s, sz)];
           fresh := S (fresh s);
           calls := calls s ++ [make_unique_array (fresh s) sz] |}
    else Throws bad_alloc s.

(** [~unique_ptr<uint8_t[]>] *)
Definition release_array (id : nat) : M unit :=
  fun s => Returns tt
             {| this := this s;
                arrays := filter (fun a => a.1 ≠ id) (arrays s);
                fresh := fresh s;
                calls := calls s ++ [delete_array id] |}.

(** [ET_CHECK_MSG (cond, ...)] of [executorch/runtime/platform/assert.h]: when
    the condition is false it logs the message and calls [runtime_abort ()],
    which does not return. *)
Definition ET_CHECK_MSG (cond : bool) : M unit :=
  if cond then mret tt else abort.

(** [ET_CHECK_MSG (r.ok (), ...)] and then the value of [r]. *)
Definition checked {T} (r : Result T) : M T :=
  ET_CHECK_MSG (ok r);;
  match r with
  | value v => mret v
  | error _ => undefined
  end.

(** Field updates of the instance. *)
Definition set_model_path (p : option string) (x : executorch_subplugin) :=
  {| configured := configured x; model_path := p; inputInfo := inputInfo x;
     outputInfo := outputInfo x; method := method x;
     method_name := method_name x |}.

Definition set_method_name (n : option string) (x : executorch_subplugin) :=
  {| configured := configured x; model_path := model_path x;
     inputInfo := inputInfo x; outputInfo := outputInfo x;
     method := method x; method_name := n |}.

Definition set_configured (b : bool) (x : executorch_subplugin) :=
  {| configured := b; model_path := model_path x; inputInfo := inputInfo x;
     outputInfo := outputInfo x; method := method x;
     method_name := method_name x |}.

Definition set_method (m : option (Result Method)) (x : executorch_subplugin) :=
  {| configured := configured x; model_path := model_path x;
     inputInfo := inputInfo x; outputInfo := outputInfo x;
     method := m; method_name := method_name x |}.

Definition set_infos (i o : GstTensorsInfo) (x : executorch_subplugin) :=
  {| configured := configured x; model_path := model_path x;
     inputInfo := i; outputInfo := o;
     method := method x; method_name := method_name x |}.

(** Modelled from the spec: [gst_tensors_info_free] (nnstreamer_plugin_api_util,
    not under src/) releases the shape metadata a tensor set holds, leaving it
    as [gst_tensors_info_init] does. *)
Definition tensors_info_free (i : GstTensorsInfo) : GstTensorsInfo :=
  gst_tensors_info_init.

(** The constructor (lines 103-109). *)
Definition new_executorch_subplugin : executorch_subplugin :=
  {| configured := false; model_path := None;
     inputInfo := gst_tensors_info_init; outputInfo := gst_tensors_info_init;
     method := None; method_name := None |}.

(** [cleanup] (lines 131-145). *)
Definition cleanup : M unit :=
  x ← get_this;
  record (g_free (model_path x));;
  modify_this (set_model_path None);;
  if negb (configured x) then mret tt
  else
    record gst_tensors_info_free;;
    record gst_tensors_info_free;;
    modify_this (set_infos (tensors_info_free (inputInfo x))
                           (tensors_info_free (outputInfo x)));;
    modify_this (set_method_name None);;
    modify_this (set_configured false).

(** The destructor (lines 114-117): its body, then the members; of these only
    [method] owns something. *)
Definition delete_executorch_subplugin : M unit :=
  cleanup;;
  x ← get_this;
  match method x with
  | Some m => record (delete_method m);; modify_this (set_method None)
  | None => mret tt
  end.

(** The end of the scope of [planned_buffers]: the vector destroys its
    elements, each of which deletes its array. *)
Fixpoint destroy_planned_buffers (planned : list Span) : M unit :=
  match planned with
  | [] => mret tt
  | b :: rest => release_array (span_array b);; destroy_planned_buffers rest
  end.

(** An exception that leaves the scope of [planned_buffers] unwinds it: the
    buffers pushed so far are destroyed on the way to the handler. *)
Definition unwinding {A} (planned : list Span) (m : M A) : M A :=
  try_catch m (fun e => destroy_planned_buffers planned;; throw e).

(** Lines 197-204: one array per planned buffer, in the order of the ids;
    [planned] are the buffers and spans pushed so far. *)
Fixpoint setup_planned_buffers (available : list (nat * Z) -> Z -> bool)
    (sizes : list Z) (planned : list Span) : M (list Span) :=
  match sizes with
  | [] => mret planned
  | sz :: rest =>
      let buffer_size := to_size_t sz in
      id ← unwinding planned (make_unique available buffer_size);
      setup_planned_buffers available rest
        (planned ++ [{| span_array := id; span_size := buffer_size |}])
  end.

(** [method = std::make_unique<Result<Method>> (...)]: the [unique_ptr] takes
    the new object and deletes the one it owned. *)
Definition assign_method (m : Result Method) : M unit :=
  x ← get_this;
  modify_this (set_method (Some m));;
  match method x with
  | Some old => record (delete_method old)
  | None => mret tt
  end.

Section Filter.

Variable rt : Runtime.

(** [configure_instance] (lines 150-229).  The [try] block ends in four
    ways: by the [throw] of line 162, by the [return] of line 176, by a
    [std::bad_alloc] out of line 202, and by running to its end at line 224.
    Each way its locals go out of scope; of these only [planned_buffers]
    owns memory that is tracked here.  The size of a planned buffer is the
    engine's to say, so that allocation is the one that is let fail; the
    small ones of fixed size (the message of line 160, the storage of the
    two vectors, the [Result<Method>] object) are taken to succeed, and
    [g_strdup] does not throw. *)
Definition configure_instance (prop : GstTensorFilterProperties) : M unit :=
  x ← get_this;
  (if configured x then cleanup else mret tt);;
  try_catch
    (match model_files prop !! 0%nat with
     | None => undefined
     | Some file =>
         if negb (g_file_test rt file) then
           throw (invalid_argument ("Given file " ++ file ++ " is not valid"))
         else
           record (g_strdup file);;
           modify_this (set_model_path (Some file));;
           record (call_FileDataLoader_from file);;
           ET_CHECK_MSG (is_Ok (FileDataLoader_from rt file));;
           record (call_Program_load file);;
           match Program_load rt file with
           | error _ => mret tt                      (* return; *)
           | value program =>
               nm ← checked (get_method_name program);
               modify_this (set_method_name (Some nm));;
               meta ← checked (method_meta program nm);
               planned ← setup_planned_buffers (new_array rt)
                           (memory_planned_buffer_size meta) [];
               record (call_load_method nm);;
               let loaded :=
                 match load_method program nm with
                 | Ok => value {| of_program := file;
                                  of_method := nm;
                                  planned_memory := planned |}
                 | Failed c => error (Failed c)
                 end in
               assign_method loaded;;
               ET_CHECK_MSG (ok loaded);;
               modify_this (set_configured true);;
               destroy_planned_buffers planned     (* end of the try block *)
           end
     end)
    (fun e => cleanup;; throw e).

(** Whether the file is compiled with [NDEBUG], and the limit on the number
    of tensors of a set declared in [tensor_typedef.h]. *)
Variable NDEBUG : bool.
Variable NNS_TENSOR_SIZE_LIMIT : Z.

(** [assert (cond)]: compiled out under [NDEBUG], otherwise it aborts the
    process when the condition is false. *)
Definition assert (cond : bool) : M unit :=
  if NDEBUG || cond then mret tt else abort.

(** Modelled from the spec: [gst_tensors_info_get_nth_info]
    (nnstreamer_plugin_api_util, not under src/), here followed by [->type]:
    NULL is returned from position [NNS_TENSOR_SIZE_LIMIT] on; a position
    never written has no type of its own. *)
Definition nth_info_type (info : GstTensorsInfo) (i : nat) : M (option Z) :=
  if Z.of_nat i <? NNS_TENSOR_SIZE_LIMIT
  then mret (type <$> nth_info info !! i)
  else undefined.

Definition at_index (mem : list GstTensorMemory) (i : nat) : M GstTensorMemory :=
  match mem !! i with
  | Some m => mret m
  | None => undefined
  end.

(** Lines 249-254. *)
Fixpoint set_inputs (eng : Engine) (input : list GstTensorMemory)
    (todo : nat) (i : nat) : M unit :=
  match todo with
  | O => mret tt
  | S todo' =>
      x ← get_this;
      ty ← nth_info_type (inputInfo x) i;
      m ← at_index input i;
      record (call_set_input i (data m) ty);;
      assert (is_Ok (set_input eng i));;
      set_inputs eng input todo' (S i)
  end.

(** Lines 263-268. *)
Fixpoint get_outputs (eng : Engine) (output : list GstTensorMemory)
    (todo : nat) (i : nat) : M unit :=
  match todo with
  | O => mret tt
  | S todo' =>
      record (call_get_output i);;
      m ← at_index output i;
      record (call_set_output_data_ptr i (data m));;
      assert (is_Ok (set_output_data_ptr eng i));;
      get_outputs eng output todo' (S i)
  end.

(** [invoke] (lines 234-269). *)
Definition invoke (eng : Engine) (input output : option (list GstTensorMemory))
  : M unit :=
  match input, output with
  | None, _ => throw (runtime_error "Invalid input buffer, it is NULL.")
  | Some _, None => throw (runtime_error "Invalid output buffer, it is NULL.")
  | Some input, Some output =>
      x ← get_this;
      match method x with
      | None => undefined                       (* method->ok () on NULL *)
      | Some (error _) =>
          throw (runtime_error "Method is not properly initialized.")
      | Some (value method_ref) =>
          set_inputs eng input (Z.to_nat (num_tensors (inputInfo x))) 0%nat;;
          record call_execute;;
          ET_CHECK_MSG (is_Ok (execute eng));;
          get_outputs eng output (Z.to_nat (num_tensors (outputInfo x))) 0%nat
      end
  end.

End Filter.

End Executorch.

(** * Vocabulary of the properties *)

Module ConverterSpec.
Import Flatbuf.


(** The window the loop makes for tensor [t]: the declared range when the
    tensor has a payload vector, and an empty window in front of the mapping
    when it has none. *)
Definition emitted_view (in_mem : GstMemory) (t : fbs.Tensor) : SharedMemory :=
  {| parent := in_mem;
     offset := data_offset in_mem (fbs.tensor_data t);
     length := VectorLength (fbs.tensor_data t) |}.



(** A tensor table with everything the loop reads through: a name and at
    least [rank] dimensions.  The payload vector may be absent. *)
Definition readable_tensor (rank : nat) (t : fbs.Tensor) : bool :=
  match fbs.name t, fbs.dimension t with
  | Some _, Some dims => bool_decide (rank <= List.length dims)%nat
  | _, _ => false
  end.


(** A host call that constructs an output buffer or a slice of the input. *)
Definition constructs_output (c : host_call) : bool :=
  match c with
  | call_buffer_new | gst_memory_share _ _ _ | call_append_memory => true
  | _ => false
  end.

(** The scenario of the specification: two tensors, the first with 48 payload
    bytes at offset 64, the second with 10 at offset 112, in an 8 KB buffer. *)
Definition scenario_envelope : fbs.Tensors :=
  {| fbs.num_tensor := 2;
     fbs.fr := Some {| fbs.rate_n := 30; fbs.rate_d := 1 |};
     fbs.tensor :=
       [ {| fbs.name := Some "a"; fbs.type := 7;
            fbs.dimension := Some [1; 3; 2; 2];
            fbs.tensor_data := Some {| fbs.data := 64; fbs.size := 48 |} |};
         {| fbs.name := Some EmptyString; fbs.type := 5;
            fbs.dimension := Some [1; 1; 1; 10];
            fbs.tensor_data := Some {| fbs.data := 112; fbs.size := 10 |} |} ];
     fbs.format := 0 |}.

(** An envelope of one tensor that has a name and dimensions but no payload
    vector. *)
Definition dataless_envelope : fbs.Tensors :=
  {| fbs.num_tensor := 1;
     fbs.fr := Some {| fbs.rate_n := 30; fbs.rate_d := 1 |};
     fbs.tensor :=
       [ {| fbs.name := Some "a"; fbs.type := 7;
            fbs.dimension := Some [1; 3; 2; 2];
            fbs.tensor_data := None |} ];
     fbs.format := 0 |}.

(** A source memory of [bytes] bytes holding envelope [e], which maps. *)
Definition source_memory (bytes : Z) (e : fbs.Tensors) : GstMemory :=
  {| mem_id := 1; mem_size := bytes; mappable := true;
     mapped_at := 93824992452784; GetTensors := e |}.

Definition source_buffer (bytes : Z) (e : fbs.Tensors) : GstBuffer GstMemory :=
  {| memory := [source_memory bytes e];
     metadata := {| pts := 1000; dts := 1000; duration := 33 |} |}.

Definition empty_config : GstTensorsConfig :=
  {| info := gst_tensors_info_init; rate_n := 0; rate_d := 1 |}.

(** An envelope that declares [n] tensors and carries none. *)
Definition declaring (n : Z) : fbs.Tensors :=
  {| fbs.num_tensor := n;
     fbs.fr := Some {| fbs.rate_n := 30; fbs.rate_d := 1 |};
     fbs.tensor := [];
     fbs.format := 1 |}.

End ConverterSpec.

Module FilterSpec.
Import Executorch.

(** A fresh process: a newly constructed instance, nothing allocated. *)
Definition initial_state : state :=
  {| this := new_executorch_subplugin; arrays := []; fresh := 0%nat; calls := [] |}.

(** A program with one method, [forward], planned on two buffers. *)
Definition forward_program : Program :=
  {| get_method_name := value "forward";
     method_meta := fun _ => value {| memory_planned_buffer_size := [1024; 4096] |};
     load_method := fun _ => Ok |}.

(** A free store that yields any array below the size of the address
    space. *)
Definition address_space (alive : list (nat * Z)) (sz : Z) : bool :=
  sz <? 2 ^ 47.

(** A file system with two regular files: [model.pte] holds
    [forward_program], [notes.txt] is not a program. *)
Definition sample_runtime : Runtime :=
  {| g_file_test := fun p => String.eqb p "model.pte" || String.eqb p "notes.txt";
     FileDataLoader_from := fun _ => Ok;
     Program_load := fun p =>
       if String.eqb p "model.pte" then value forward_program
       else error (Failed 35);
     new_array := address_space |}.

(** A program whose second planned buffer reports the size [-1]. *)
Definition oversized_program : Program :=
  {| get_method_name := value "forward";
     method_meta := fun _ => value {| memory_planned_buffer_size := [1024; -1] |};
     load_method := fun _ => Ok |}.

(** The same file system, with [oversized_program] in [model.pte]. *)
Definition oversized_runtime : Runtime :=
  {| g_file_test := g_file_test sample_runtime;
     FileDataLoader_from := fun _ => Ok;
     Program_load := fun p =>
       if String.eqb p "model.pte" then value oversized_program
       else error (Failed 35);
     new_array := address_space |}.

Definition prop_of (path : string) : GstTensorFilterProperties :=
  {| model_files := [path] |}.

Definition healthy_engine : Engine :=
  {| set_input := fun _ => Ok; execute := Ok; set_output_data_ptr := fun _ => Ok |}.

Definition failing_engine : Engine :=
  {| set_input := fun _ => Ok; execute := Failed 18;
     set_output_data_ptr := fun _ => Ok |}.

Definition one_memory : list GstTensorMemory := [ {| data := 4096; size := 16 |} ].

(** The state a run ends in, when it ends in one. *)
Definition final_state {A} (o : outcome A) : option state :=
  match o with
  | Returns _ s | Throws _ s | Aborts s => Some s
  | Undefined => None
  end.

(** The instance after [model.pte] was configured on a fresh one. *)
Definition configured_state : state :=
  default initial_state
    (final_state (configure_instance sample_runtime (prop_of "model.pte") initial_state)).

(** The identities of the arrays alive. *)
Definition alive (s : state) : list nat := (arrays s).*1.

(** The spans [setup_planned_buffers] makes for [sizes] when [from] is the
    next fresh array: consecutive arrays, the declared sizes in order. *)
Fixpoint new_spans (from : nat) (sizes : list Z) : list Span :=
  match sizes with
  | [] => []
  | sz :: rest =>
      {| span_array := from; span_size := to_size_t sz |} :: new_spans (S from) rest
  end.

Definition array_of (sp : Span) : nat * Z := (span_array sp, span_size sp).

(** The planned buffers of [sizes] that line 202 gets, one after the other,
    from a free store that holds [alive] when [next] is the next fresh
    array: all of them, or those before the first that is refused. *)
Fixpoint allocated (available : list (nat * Z) -> Z -> bool)
    (alive : list (nat * Z)) (next : nat) (sizes : list Z) : list Z :=
  match sizes with
  | [] => []
  | sz :: rest =>
      if available alive (to_size_t sz)
      then sz :: allocated available (alive ++ [(next, to_size_t sz)]) (S next) rest
      else []
  end.

(** None of them is refused. *)
Fixpoint fits (available : list (nat * Z) -> Z -> bool)
    (alive : list (nat * Z)) (next : nat) (sizes : list Z) : bool :=
  match sizes with
  | [] => true
  | sz :: rest =>
      available alive (to_size_t sz)
      && fits available (alive ++ [(next, to_size_t sz)]) (S next) rest
  end.

Definition allocation_of (sp : Span) : call :=
  make_unique_array (span_array sp) (span_size sp).

Definition release_of (sp : Span) : call := delete_array (span_array sp).

(** A span whose array is no longer alive. *)
Definition dangling (s : state) (sp : Span) : Prop := span_array sp ∉ alive s.

(** What [cleanup] leaves of a configured instance: no model path, no shape
    metadata, no method name, not configured; [method] is as it was. *)
Definition torn_down (s : state) : state :=
  {| this := {| configured := false; model_path := None;
                inputInfo := gst_tensors_info_init;
                outputInfo := gst_tensors_info_init;
                method := method (this s); method_name := None |};
     arrays := arrays s;
     fresh := fresh s;
     calls := calls s ++ [g_free (model_path (this s));
                          gst_tensors_info_free; gst_tensors_info_free] |}.

(** The state in which [configure_instance] enters its [try] block. *)
Definition entry_state (s : state) : state :=
  if configured (this s) then torn_down s else s.

(** The calls that release the method the [unique_ptr] owned, if any. *)
Definition release_of_method (old : option (Result Method)) : list call :=
  match old with
  | Some m => [delete_method m]
  | None => []
  end.

Definition is_allocation (c : call) : bool :=
  match c with make_unique_array _ _ => true | _ => false end.

Definition is_release (c : call) : bool :=
  match c with delete_array _ => true | _ => false end.

(** Every state a computation can end in is related to the one it started
    in. *)
Definition preserves (R : state -> state -> Prop) {A} (m : M A) : Prop :=
  forall s s', final_state (m s) = Some s' -> R s s'.

(** Only calls were added. *)
Definition extends (s s' : state) : Prop :=
  exists added, calls s' = calls s ++ added.

(** The instance and the free store are as they were; only calls were
    added. *)
Definition untouched (s s' : state) : Prop :=
  this s' = this s /\ arrays s' = arrays s /\ fresh s' = fresh s /\ extends s s'.

End FilterSpec.

(** * The remaining member functions of the filter *)
Module ExecutorchInfo.
Import Executorch.

(** [model_info_ops] of [nnstreamer_plugin_api_filter.h]. *)
Inductive model_info_ops : Type := GET_IN_OUT_INFO | SET_INPUT_INFO.

(** [ENOENT] of [errno.h]. *)
Definition ENOENT : Z := 2.

(** Modelled from the spec: [gst_tensors_info_copy] (nnstreamer_plugin_api_util,
    not under src/) makes [dest] an owned copy of the shape metadata [src]. *)
Definition gst_tensors_info_copy (dest src : GstTensorsInfo) : GstTensorsInfo :=
  src.

(** [getModelInfo] (lines 283-294): the returned status, and the two
    reference arguments as the call leaves them. *)
Definition getModelInfo (ops : model_info_ops) (in_info out_info : GstTensorsInfo)
  : M (Z * GstTensorsInfo * GstTensorsInfo) :=
  match ops with
  | GET_IN_OUT_INFO =>
      x ← get_this;
      mret (0, gst_tensors_info_copy in_info (inputInfo x),
               gst_tensors_info_copy out_info (outputInfo x))
  | _ => mret (- ENOENT, in_info, out_info)
  end.

End ExecutorchInfo.

(** * Vocabulary of the further properties *)

Module DecodeSpec.
Import Flatbuf ConverterSpec.

(** The descriptor the loop writes for tensor [t]. *)
Definition decoded_info (rank : nat) (t : fbs.Tensor) : GstTensorInfo :=
  {| name := strdup_nonempty (default EmptyString (fbs.name t));
     type := fbs.type t;
     dimension := take rank (default [] (fbs.dimension t)) |}.

(** The host calls of the turn for tensor [t] at position [i]. *)
Definition tensor_calls (in_mem : GstMemory) (i : nat) (t : fbs.Tensor)
  : list host_call :=
  [g_free_name i;
   gst_memory_share (mem_id in_mem) (offset (emitted_view in_mem t))
     (length (emitted_view in_mem t));
   call_append_memory].

(** The calls of the turns for the tensors [ts], the first at position [i]. *)
Fixpoint turns_calls (in_mem : GstMemory) (i : nat) (ts : list fbs.Tensor)
  : list host_call :=
  match ts with
  | [] => []
  | t :: rest => tensor_calls in_mem i t ++ turns_calls in_mem (S i) rest
  end.

(** The state of the loop after the turn for tensor [t] at position [i]. *)
Definition tensor_step (in_mem : GstMemory) (rank : nat) (i : nat)
    (t : fbs.Tensor) (s : loop_state) : loop_state :=
  {| ls_config := set_nth_info (ls_config s) i (decoded_info rank t);
     ls_out := gst_buffer_append_memory (ls_out s) (emitted_view in_mem t);
     ls_calls := ls_calls s ++ tensor_calls in_mem i t |}.

(** The state of the loop after the turns for [ts], the first at position
    [i]. *)
Fixpoint run_turns (in_mem : GstMemory) (rank : nat) (i : nat)
    (ts : list fbs.Tensor) (s : loop_state) : loop_state :=
  match ts with
  | [] => s
  | t :: rest => run_turns in_mem rank (S i) rest (tensor_step in_mem rank i t s)
  end.

(** The number of turns the loop is entered for. *)
Definition turns (e : fbs.Tensors) : nat := Z.to_nat (to_guint (fbs.num_tensor e)).

(** An envelope the converter decodes: the declared count is within the
    limit, the frame rate is present, there are at least as many tensor
    tables as the loop has turns, each of those has a name and enough
    dimensions, and the turns stay within the descriptors a tensor set has
    room for. *)
Definition decodable (limit : Z) (rank : nat) (e : fbs.Tensors) : bool :=
  bool_decide (fbs.num_tensor e <= limit)
  && bool_decide (is_Some (fbs.fr e))
  && bool_decide (turns e <= List.length (fbs.tensor e))%nat
  && forallb (readable_tensor rank) (take (turns e) (fbs.tensor e))
  && bool_decide (turns e = 0%nat \/ Z.of_nat (turns e) <= limit).

(** The state in which the loop is entered: the count, format and frame
    rate of the envelope are in the config, the output buffer is new. *)
Definition decode_start (c : GstTensorsConfig) (in_mem : GstMemory)
    (f : fbs.frame_rate) : loop_state :=
  {| ls_config :=
       {| info := {| num_tensors := to_guint (fbs.num_tensor (GetTensors in_mem));
                     format := fbs.format (GetTensors in_mem);
                     nth_info := nth_info (info c) |};
          rate_n := fbs.rate_n f;
          rate_d := fbs.rate_d f |};
     ls_out := gst_buffer_new;
     ls_calls := [gst_memory_map (mem_id in_mem); call_buffer_new] |}.

(** What a decoding run returns. *)
Definition decode_result (rank : nat) (b : GstBuffer GstMemory)
    (c : GstTensorsConfig) (in_mem : GstMemory) (f : fbs.frame_rate) : returned :=
  let e := GetTensors in_mem in
  let s := run_turns in_mem rank 0 (take (turns e) (fbs.tensor e))
             (decode_start c in_mem f) in
  {| out_buf := Some (gst_buffer_copy_into (ls_out s) b);
     config := Some (ls_config s);
     calls := ls_calls s ++ [call_copy_into; gst_memory_unmap (mem_id in_mem)] |}.

(** The string has a NUL character in it. *)
Fixpoint has_nul (s : string) : bool :=
  match s with
  | EmptyString => false
  | String c r => Ascii.eqb c Ascii.zero || has_nul r
  end.


Definition is_map_or_unmap (c : host_call) : bool :=
  match c with
  | gst_memory_map _ | gst_memory_unmap _ => true
  | _ => false
  end.

End DecodeSpec.

Module LifecycleSpec.
Import Executorch ExecutorchInfo FilterSpec.

(** A computation that throws from no state. *)
Definition never_throws {A} (m : M A) : Prop :=
  forall s e s', m s <> Throws e s'.

(** The state a member function hands back to its caller, when control comes
    back at all: by a return or by an exception. *)
Definition continues {A} (o : outcome A) : option state :=
  match o with
  | Returns _ s | Throws _ s => Some s
  | Aborts _ | Undefined => None
  end.

(** The states of an instance in use: it is constructed in a fresh process,
    and then configured and invoked any number of times, in any order, for
    as long as control comes back. *)
Inductive reachable : state -> Prop :=
| reach_new : reachable initial_state
| reach_configure rt prop s s' :
    reachable s ->
    continues (configure_instance rt prop s) = Some s' ->
    reachable s'
| reach_invoke ndebug limit eng input output s s' :
    reachable s ->
    continues (invoke ndebug limit eng input output s) = Some s' ->
    reachable s'.

(** What holds of every instance in use. *)
Record consistent (s : state) : Prop := {
  no_input_shape : inputInfo (this s) = gst_tensors_info_init;
  no_output_shape : outputInfo (this s) = gst_tensors_info_init;
  no_array_alive : arrays s = [];
  method_is_loaded :
    forall r, method (this s) = Some r -> exists m, r = value m;
  configured_has_method :
    configured (this s) = true ->
    exists m, method (this s) = Some (value m)
              /\ model_path (this s) = Some (of_program m)
              /\ method_name (this s) = Some (of_method m)
}.

(** The calls that bind the inputs [mem], the first at position [i]. *)
Fixpoint input_calls (info : GstTensorsInfo) (i : nat) (mem : list GstTensorMemory)
  : list call :=
  match mem with
  | [] => []
  | m :: rest =>
      call_set_input i (data m) (type <$> nth_info info !! i)
      :: input_calls info (S i) rest
  end.

(** The calls that fetch the outputs into [mem], the first at position [i]. *)
Fixpoint output_calls (i : nat) (mem : list GstTensorMemory) : list call :=
  match mem with
  | [] => []
  | m :: rest =>
      call_get_output i :: call_set_output_data_ptr i (data m)
      :: output_calls (S i) rest
  end.

(** The replies of the engine to the first [n] calls are all [Ok]. *)
Definition replies_ok (reply : nat -> Error) (n : nat) : Prop :=
  forall i, (i < n)%nat -> is_Ok (reply i) = true.

(** An instance whose metadata counts two input tensors and one output
    tensor, with a loaded method. *)
Definition shaped_state : state :=
  {| this :=
       {| configured := true;
          model_path := Some "model.pte"%string;
          inputInfo :=
            {| num_tensors := 2; format := 0;
               nth_info :=
                 <[0%nat := {| name := None; type := 7; dimension := [1; 3; 2; 2] |}]>
                   (<[1%nat := {| name := None; type := 5; dimension := [1; 1; 1; 10] |}]>
                      ∅) |};
          outputInfo := {| num_tensors := 1; format := 0; nth_info := ∅ |};
          method := Some (value {| of_program := "model.pte";
                                   of_method := "forward";
                                   planned_memory := [] |});
          method_name := Some "forward"%string |};
     arrays := []; fresh := 0%nat; calls := [] |}.

Definition three_memories : list GstTensorMemory :=
  [ {| data := 4096; size := 48 |}; {| data := 8192; size := 10 |};
    {| data := 12288; size := 4 |} ].

(** The state [s] after one more call. *)
Definition after_call (s : state) (c : call) : state :=
  {| this := this s; arrays := arrays s; fresh := fresh s;
     calls := calls s ++ [c] |}.

(** The state a parse failure leaves behind on a fresh instance: not
    configured, holding the copy of a model path. *)
Definition unparsed_state : state :=
  default initial_state
    (final_state (configure_instance sample_runtime (prop_of "notes.txt")
                    initial_state)).

Definition is_g_free (c : call) : bool :=
  match c with g_free _ => true | _ => false end.

(** Calls were added, none of them a [g_free]. *)
Definition nothing_freed (s s' : state) : Prop :=
  exists added, calls s' = calls s ++ added
                /\ forallb (fun c => negb (is_g_free c)) added = true.

(** How [configure_instance] ends, as the file system, the engine and the
    free store decide it. *)
Inductive verdict : Type :=
| ends_undefined
| ends_throwing
| ends_aborting
| ends_unconfigured
| ends_configured.

Definition configure_verdict (rt : Runtime) (prop : GstTensorFilterProperties)
    (s : state) : verdict :=
  match model_files prop !! 0%nat with
  | None => ends_undefined
  | Some file =>
      if negb (g_file_test rt file) then ends_throwing
      else if negb (is_Ok (FileDataLoader_from rt file)) then ends_aborting
      else match Program_load rt file with
           | error _ => ends_unconfigured
           | value program =>
               match get_method_name program with
               | error _ => ends_aborting
               | value nm =>
                   match method_meta program nm with
                   | error _ => ends_aborting
                   | value meta =>
                       if negb (fits (new_array rt) (arrays s) (fresh s)
                                  (memory_planned_buffer_size meta))
                       then ends_throwing
                       else if is_Ok (load_method program nm) then ends_configured
                       else ends_aborting
                   end
               end
           end
  end.

(** Outcome [o] is of the kind [v]. *)
Definition ends_as {A} (o : outcome A) (v : verdict) : Prop :=
    match v, o with
    | ends_undefined, Undefined => True
    | ends_throwing, Throws _ _ => True
    | ends_aborting, Aborts _ => True
    | ends_unconfigured, Returns _ s => configured (this s) = false
    | ends_configured, Returns _ s => configured (this s) = true
    | _, _ => False
    end.

End LifecycleSpec.

(** * Properties of the converter *)

Module ConverterProps.
Import Flatbuf ConverterSpec.

Section Loop.

Variable limit : Z.
Variable rank : nat.
Variable in_mem : GstMemory.
Variable ts : list fbs.Tensor.




(** On a tensor without a payload vector it is empty and starts in front of
    the mapping. *)
Lemma emitted_view_no_data t :
  fbs.tensor_data t = None ->
  emitted_view in_mem t
  = {| parent := in_mem; offset := sizeof_uoffset_t - mapped_at in_mem;
       length := 0 |}.
Proof. intros Hd. unfold emitted_view. rewrite Hd. reflexivity. Qed.





End Loop.

(** Sanity checks of the embedding on the scenario's buffer. *)
Example scenario_calls :
  calls <$> (match fbc_convert 16 4 (Some (source_buffer 8192 scenario_envelope))
                   (Some empty_config) with
             | Done r => Some r | Fault _ => None end)
  = Some [gst_memory_map 1; call_buffer_new;
          g_free_name 0; gst_memory_share 1 64 48; call_append_memory;
          g_free_name 1; gst_memory_share 1 112 10; call_append_memory;
          call_copy_into; gst_memory_unmap 1].
Proof. vm_compute. reflexivity. Qed.

(** A tensor table without a payload vector does not stop the run: its
    window is empty and lies in front of the mapping. *)
Example dataless_tensor_is_shared :
  fbc_convert 16 4 (Some (source_buffer 8192 dataless_envelope))
    (Some empty_config)
  = Done {| out_buf :=
              Some {| memory :=
                        [ {| parent := source_memory 8192 dataless_envelope;
                             offset := -93824992452780; length := 0 |} ];
                      metadata := {| pts := 1000; dts := 1000; duration := 33 |} |};
            config :=
              Some {| info := {| num_tensors := 1; format := 0;
                                 nth_info :=
                                   {[ 0%nat := {| name := Some "a"%string;
                                                  type := 7;
                                                  dimension := [1; 3; 2; 2] |} ]} |};
                      rate_n := 30; rate_d := 1 |};
            calls := [gst_memory_map 1; call_buffer_new;
                      g_free_name 0;
                      gst_memory_share 1 (-93824992452780) 0;
                      call_append_memory;
                      call_copy_into; gst_memory_unmap 1] |}.
Proof. vm_compute. reflexivity. Qed.

Example scenario_names :
  strdup_nonempty "a" = Some "a"%string /\ strdup_nonempty "" = None.
Proof. split; reflexivity. Qed.





(** C3 as stated fails: with 17 tensors declared against a limit of 16 the
    call returns NULL, and the caller's config is not what it was. *)
Lemma over_limit_config_changed :
  exists r,
    fbc_convert 16 4 (Some (source_buffer 8192 (declaring 17)))
      (Some empty_config) = Done r
    /\ out_buf r = None
    /\ config r <> Some empty_config
    /\ (num_tensors ∘ info) <$> config r = Some 17.
Proof.
  eexists. split; [reflexivity|]. cbn.
  split; [reflexivity|]. split; [|reflexivity].
  intros [= H]. 
Qed.

(** C3, amended.  When the declared count exceeds the limit, the converter
    returns NULL and has constructed nothing; of the caller's config only
    [info.num_tensors] and [info.format] were written (with the envelope's
    values, before the limit was tested): the frame rate and the per-tensor
    entries are as they were. *)
Theorem over_limit_config_effect
    (limit : Z) (rank : nat) (b : GstBuffer GstMemory) (c : GstTensorsConfig)
    (in_mem : GstMemory) :
  gst_buffer_peek_memory b 0 = Some in_mem ->
  mappable in_mem = true ->
  fbs.num_tensor (GetTensors in_mem) > limit ->
  exists r c',
    fbc_convert limit rank (Some b) (Some c) = Done r
    /\ out_buf r = None
    /\ forallb (fun k => negb (constructs_output k)) (calls r) = true
    /\ config r = Some c'
    /\ rate_n c' = rate_n c
    /\ rate_d c' = rate_d c
    /\ nth_info (info c') = nth_info (info c)
    /\ num_tensors (info c') = to_guint (fbs.num_tensor (GetTensors in_mem))
    /\ format (info c') = fbs.format (GetTensors in_mem).
Proof.
  intros Hpeek Hmap Hn. unfold fbc_convert. rewrite Hpeek, Hmap. cbn [negb].
  destruct (Z.gtb_spec (fbs.num_tensor (GetTensors in_mem)) limit); [|lia].
  eexists _, _. split; [reflexivity|]. cbn. repeat split; reflexivity.
Qed.

Lemma over_limit_config_effect_at_17 :
  gst_buffer_peek_memory (source_buffer 8192 (declaring 17)) 0
    = Some (source_memory 8192 (declaring 17))
  /\ mappable (source_memory 8192 (declaring 17)) = true
  /\ fbs.num_tensor (GetTensors (source_memory 8192 (declaring 17))) > 16
  /\ exists r c',
       fbc_convert 16 4 (Some (source_buffer 8192 (declaring 17)))
         (Some empty_config) = Done r
       /\ out_buf r = None
       /\ forallb (fun k => negb (constructs_output k)) (calls r) = true
       /\ config r = Some c'
       /\ rate_n c' = 0
       /\ rate_d c' = 1
       /\ nth_info (info c') = ∅
       /\ num_tensors (info c') = to_guint 17
       /\ format (info c') = 1.
Proof.
  split; [reflexivity|]. split; [reflexivity|]. split; [reflexivity|].
  exact (over_limit_config_effect 16 4 (source_buffer 8192 (declaring 17))
           empty_config (source_memory 8192 (declaring 17))
           eq_refl eq_refl eq_refl).
Defined.




(** C10.  With a NULL input buffer or a NULL config the converter returns
    NULL; the other argument is as it was, and the only call made is the one
    that logs the error: no memory was mapped, so no envelope was read, and
    no window was made. *)
Theorem null_argument_returns_null
    (limit : Z) (rank : nat) (in_buf : option (GstBuffer GstMemory))
    (c : option GstTensorsConfig) :
  in_buf = None \/ c = None ->
  fbc_convert limit rank in_buf c
  = Done {| out_buf := None; config := c;
            calls := [loge "NULL parameter is passed to tensor_converter::flatbuf"] |}.
Proof.
  intros [-> | ->]; [|destruct in_buf]; reflexivity.
Qed.

Lemma null_argument_returns_null_no_buffer :
  (@None (GstBuffer GstMemory) = None \/ Some empty_config = None)
  /\ fbc_convert 16 4 None (Some empty_config)
     = Done {| out_buf := None; config := Some empty_config;
               calls := [loge "NULL parameter is passed to tensor_converter::flatbuf"] |}.
Proof.
  split; [left; reflexivity|].
  apply (null_argument_returns_null 16 4 None (Some empty_config)).
  left; reflexivity.
Defined.

End ConverterProps.

(** * Properties of the filter *)

Module FilterProps.
Import Executorch FilterSpec.

(** ** What a computation leaves alone *)

Section Preservation.

Variable R : state -> state -> Prop.
Hypothesis R_refl : forall s, R s s.
Hypothesis R_trans : forall s1 s2 s3, R s1 s2 -> R s2 s3 -> R s1 s3.

Lemma preserves_ret {A} (a : A) : preserves R (mret a).
Proof. intros s s' [= <-]. apply R_refl. Qed.

Lemma preserves_throw {A} e : preserves R (@throw A e).
Proof. intros s s' [= <-]. apply R_refl. Qed.

Lemma preserves_abort {A} : preserves R (@abort A).
Proof. intros s s' [= <-]. apply R_refl. Qed.

Lemma preserves_undefined {A} : preserves R (@undefined A).
Proof. intros s s' [=]. Qed.

Lemma preserves_get_this : preserves R get_this.
Proof. intros s s' [= <-]. apply R_refl. Qed.

Lemma preserves_bind {A B} (m : M A) (k : A -> M B) :
  preserves R m -> (forall a, preserves R (k a)) -> preserves R (m ≫= k).
Proof.
  intros Hm Hk s s'. unfold mbind, M_bind.
  specialize (Hm s).
  destruct (m s) as [a s1|e s1|s1|]; cbn in *; intros H.
  - eapply R_trans; [apply Hm; reflexivity|]. eapply Hk; eassumption.
  - apply Hm. assumption.
  - apply Hm. assumption.
  - discriminate.
Qed.

Lemma preserves_try_catch {A} (body : M A) handler :
  preserves R body -> (forall e, preserves R (handler e)) ->
  preserves R (try_catch body handler).
Proof.
  intros Hb Hh s s'. unfold try_catch.
  specialize (Hb s).
  destruct (body s) as [a s1|e s1|s1|]; cbn in *; intros H.
  - apply Hb. assumption.
  - eapply R_trans; [apply Hb; reflexivity|]. eapply Hh; eassumption.
  - apply Hb. assumption.
  - discriminate.
Qed.

Lemma preserves_ET_CHECK_MSG cond : preserves R (ET_CHECK_MSG cond).
Proof.
  destruct cond; [apply preserves_ret | apply preserves_abort].
Qed.

Lemma preserves_checked {T} (r : Result T) : preserves R (checked r).
Proof.
  apply preserves_bind; [apply preserves_ET_CHECK_MSG|].
  intros _. destruct r; [apply preserves_ret | apply preserves_undefined].
Qed.

End Preservation.

Lemma extends_refl s : extends s s.
Proof. exists []. by rewrite app_nil_r. Qed.

Lemma extends_trans s1 s2 s3 : extends s1 s2 -> extends s2 s3 -> extends s1 s3.
Proof.
  intros [l1 H1] [l2 H2]. exists (l1 ++ l2). by rewrite H2, H1, app_assoc.
Qed.

Lemma untouched_refl s : untouched s s.
Proof. repeat split; auto using extends_refl. Qed.

Lemma untouched_trans s1 s2 s3 :
  untouched s1 s2 -> untouched s2 s3 -> untouched s1 s3.
Proof.
  intros (? & ? & ? & ?) (? & ? & ? & ?).
  repeat split; try congruence. eapply extends_trans; eassumption.
Qed.

Lemma untouched_record c : preserves untouched (record c).
Proof.
  intros s s' [= <-]. repeat split; cbn; auto. by exists [c].
Qed.

Lemma extends_record c : preserves extends (record c).
Proof. intros s s' [= <-]. by exists [c]. Qed.

Lemma extends_modify_this f : preserves extends (modify_this f).
Proof. intros s s' [= <-]. exists []. cbn. by rewrite app_nil_r. Qed.

Lemma extends_make_unique av sz : preserves extends (make_unique av sz).
Proof.
  intros s s'. unfold make_unique. destruct (av (arrays s) sz); intros [= <-].
  - by eexists [_].
  - apply extends_refl.
Qed.

Lemma extends_release_array id : preserves extends (release_array id).
Proof. intros s s' [= <-]. by eexists [_]. Qed.

Create HintDb filter.

#[local] Hint Resolve extends_refl extends_trans untouched_refl untouched_trans
  : filter.
#[local] Hint Resolve preserves_ret preserves_throw preserves_abort
  preserves_undefined preserves_get_this preserves_ET_CHECK_MSG
  preserves_checked untouched_record extends_record extends_modify_this
  extends_make_unique extends_release_array : filter.

(** Build a [preserves] goal from the shape of the computation. *)
Ltac preserve :=
  repeat first
    [ solve [eauto 4 with filter]
    | apply preserves_bind; [solve [eauto with filter] | | intros ? ]
    | apply preserves_try_catch; [solve [eauto with filter] | | intros ? ]
    | match goal with
      | |- preserves _ (if ?c then _ else _) => destruct c
      | |- preserves _ (match ?x with _ => _ end) => destruct x
      end ].

Section Invoke.

Variable NDEBUG : bool.
Variable limit : Z.
Variable eng : Engine.

Lemma untouched_assert cond : preserves untouched (assert NDEBUG cond).
Proof. unfold assert. preserve. Qed.

Lemma untouched_set_inputs input todo : forall i,
  preserves untouched (set_inputs NDEBUG limit eng input todo i).
Proof.
  induction todo as [|todo IH]; intros i; cbn [set_inputs].
  - preserve.
  - unfold nth_info_type, at_index.
    pose proof untouched_assert. preserve.
Qed.

Lemma untouched_get_outputs output todo : forall i,
  preserves untouched (get_outputs NDEBUG eng output todo i).
Proof.
  induction todo as [|todo IH]; intros i; cbn [get_outputs].
  - preserve.
  - unfold at_index. pose proof untouched_assert. preserve.
Qed.

(** [invoke] changes neither the instance nor the free store. *)
Lemma untouched_invoke input output :
  preserves untouched (invoke NDEBUG limit eng input output).
Proof.
  unfold invoke.
  pose proof untouched_set_inputs. pose proof untouched_get_outputs.
  destruct input, output; preserve.
Qed.

End Invoke.

(** ** The planned buffers *)

Lemma new_spans_sizes sizes : forall from,
  map span_size (new_spans from sizes) = map to_size_t sizes.
Proof. induction sizes; intros from; cbn; [done | by rewrite IHsizes]. Qed.

Lemma new_spans_arrays sizes : forall from,
  map span_array (new_spans from sizes) = seq from (List.length sizes).
Proof. induction sizes; intros from; cbn; [done | by rewrite IHsizes]. Qed.

Lemma destroy_planned_buffers_spec planned : forall s,
  exists s',
    destroy_planned_buffers planned s = Returns tt s'
    /\ this s' = this s
    /\ fresh s' = fresh s
    /\ calls s' = calls s ++ map release_of planned
    /\ forall a, a ∈ arrays s' <->
                 a ∈ arrays s /\ a.1 ∉ map span_array planned.
Proof.
  induction planned as [|b rest IH]; intros s; cbn.
  - eexists. split; [reflexivity|]. rewrite app_nil_r.
    do 3 (split; [reflexivity|]). intros a. cbn.
    split; [intros H; split; [exact H | apply not_elem_of_nil] | tauto].
  - unfold mbind, M_bind. cbn.
    match goal with
    | |- context [destroy_planned_buffers rest ?s1] =>
        destruct (IH s1) as (s' & Hrun & Hthis & Hfresh & Hcalls & Harr)
    end.
    exists s'. split; [exact Hrun|]. cbn in *.
    split; [exact Hthis|]. split; [exact Hfresh|].
    split; [by rewrite Hcalls, <- app_assoc|].
    intros a. rewrite Harr, list_elem_of_filter, not_elem_of_cons. tauto.
Qed.

(** When no planned buffer is refused, each gets its array. *)
Lemma setup_planned_buffers_fits av sizes : forall planned s,
  fits av (arrays s) (fresh s) sizes = true ->
  setup_planned_buffers av sizes planned s
  = Returns (planned ++ new_spans (fresh s) sizes)
      {| this := this s;
         arrays := arrays s ++ map array_of (new_spans (fresh s) sizes);
         fresh := (fresh s + List.length sizes)%nat;
         calls := calls s ++ map allocation_of (new_spans (fresh s) sizes) |}.
Proof.
  induction sizes as [|sz rest IH]; intros planned s; cbn.
  - intros _. rewrite !app_nil_r, Nat.add_0_r. by destruct s.
  - intros [Hav Hfit]%andb_prop.
    unfold mbind, M_bind, unwinding, try_catch, make_unique. rewrite Hav.
    rewrite IH by exact Hfit. cbn.
    rewrite <- !app_assoc. cbn. do 2 f_equal. lia.
Qed.

(** When one is refused, [std::bad_alloc] leaves the loop; the arrays got
    until then, and those of the buffers pushed before, were released on the
    way out. *)
Lemma setup_planned_buffers_refused av sizes : forall planned s,
  fits av (arrays s) (fresh s) sizes = false ->
  let got := new_spans (fresh s) (allocated av (arrays s) (fresh s) sizes) in
  exists s',
    setup_planned_buffers av sizes planned s = Throws bad_alloc s'
    /\ this s' = this s
    /\ calls s' = calls s ++ map allocation_of got
                          ++ map release_of (planned ++ got)
    /\ forall a, a ∈ arrays s' <->
                 a ∈ arrays s ++ map array_of got
                 /\ a.1 ∉ map span_array (planned ++ got).
Proof.
  induction sizes as [|sz rest IH]; intros planned s; cbn; [discriminate|].
  unfold mbind, M_bind, unwinding, try_catch, make_unique.
  destruct (av (arrays s) (to_size_t sz)) eqn:Hav; cbn.
  - intros Hfit.
    match goal with
    | |- context [setup_planned_buffers av rest ?p ?s1] =>
        destruct (IH p s1 Hfit) as (s' & Hrun & Hthis & Hcalls & Harr)
    end.
    cbn in *. exists s'. split; [exact Hrun|]. split; [exact Hthis|].
    split.
    + rewrite Hcalls. repeat (rewrite <- app_assoc; cbn). reflexivity.
    + intros a. rewrite Harr. repeat (rewrite <- app_assoc; cbn). reflexivity.
  - intros _.
    destruct (destroy_planned_buffers_spec planned s)
      as (s' & Hrun & Hthis & _ & Hcalls & Harr).
    unfold mbind, M_bind. rewrite Hrun. exists s'. split; [reflexivity|]. split; [exact Hthis|].
    cbn. rewrite !app_nil_r. split; [exact Hcalls | exact Harr].
Qed.

(** The loop over the planned buffers ends in no other way. *)
Lemma setup_planned_buffers_Returns av sizes planned s p s' :
  setup_planned_buffers av sizes planned s = Returns p s' ->
  fits av (arrays s) (fresh s) sizes = true.
Proof.
  intros Hrun. destruct (fits av (arrays s) (fresh s) sizes) eqn:Hfit; [done|].
  destruct (setup_planned_buffers_refused av sizes planned s Hfit)
    as (s1 & Hs1 & _).
  congruence.
Qed.

(** ** [cleanup] and [configure_instance] *)

Lemma cleanup_configured s :
  configured (this s) = true -> cleanup s = Returns tt (torn_down s).
Proof.
  intros H. unfold cleanup, torn_down, mbind, M_bind. cbn. rewrite H. cbn.
  by rewrite <- !app_assoc.
Qed.

Lemma cleanup_not_configured s :
  configured (this s) = false ->
  cleanup s = Returns tt
    {| this := set_model_path None (this s); arrays := arrays s;
       fresh := fresh s; calls := calls s ++ [g_free (model_path (this s))] |}.
Proof.
  intros H. unfold cleanup, mbind, M_bind. cbn. by rewrite H.
Qed.

(** The handler of [configure_instance] always rethrows. *)
Lemma handler_rethrows e s :
  exists s', (cleanup;; throw e) s = @Throws unit e s'.
Proof.
  unfold mbind at 1, M_bind at 1.
  destruct (configured (this s)) eqn:Hc.
  - rewrite (cleanup_configured s Hc). by eexists.
  - rewrite (cleanup_not_configured s Hc). by eexists.
Qed.

Lemma try_catch_Returns (body : M unit) s s' :
  try_catch body (fun e => cleanup;; throw e) s = Returns tt s' ->
  body s = Returns tt s'.
Proof.
  unfold try_catch. destruct (body s) as [[] s1|e s1|s1|]; try done.
  destruct (handler_rethrows e s1) as [s2 ->]. discriminate.
Qed.

Section Configure.

Variable rt : Runtime.
Variable prop : GstTensorFilterProperties.

(** A configured instance is torn down first; the rest of the call runs as
    on an instance that was not configured. *)
Lemma configure_entry s :
  configure_instance rt prop s = configure_instance rt prop (entry_state s)
  /\ configured (this (entry_state s)) = false.
Proof.
  unfold entry_state.
  destruct (configured (this s)) eqn:Hc; [|by split].
  split; [|reflexivity].
  unfold configure_instance at 1 2. unfold mbind at 1 2 5 6, M_bind at 1 2 5 6.
  cbn. rewrite Hc. by rewrite (cleanup_configured s Hc).
Qed.

Lemma configure_success_not_configured s s' :
  configured (this s) = false ->
  configure_instance rt prop s = Returns tt s' ->
  configured (this s') = true ->
  exists file program nm meta,
    model_files prop !! 0%nat = Some file
    /\ g_file_test rt file = true
    /\ Program_load rt file = value program
    /\ get_method_name program = value nm
    /\ method_meta program nm = value meta
    /\ load_method program nm = Ok
    /\ let planned := new_spans (fresh s) (memory_planned_buffer_size meta) in
       this s' = {| configured := true; model_path := Some file;
                    inputInfo := inputInfo (this s);
                    outputInfo := outputInfo (this s);
                    method := Some (value {| of_program := file; of_method := nm;
                                             planned_memory := planned |});
                    method_name := Some nm |}
       /\ calls s' = calls s
                      ++ [g_strdup file; call_FileDataLoader_from file;
                          call_Program_load file]
                      ++ map allocation_of planned
                      ++ [call_load_method nm]
                      ++ release_of_method (method (this s))
                      ++ map release_of planned
       /\ (forall a, a ∈ arrays s' <->
                     a ∈ arrays s ++ map array_of planned
                     /\ a.1 ∉ map span_array planned).
Proof.
  intros Hc Hrun Hdone.
  unfold configure_instance in Hrun.
  unfold mbind at 1 2, M_bind at 1 2 in Hrun. cbn in Hrun. rewrite Hc in Hrun.
  cbn in Hrun. apply try_catch_Returns in Hrun.
  destruct (model_files prop !! 0%nat) as [file|]; [|discriminate].
  destruct (g_file_test rt file) eqn:Hfile; cbn in Hrun; [|discriminate].
  unfold mbind, M_bind in Hrun. cbn in Hrun.
  destruct (FileDataLoader_from rt file); cbn in Hrun; [|discriminate].
  destruct (Program_load rt file) as [program|] eqn:Hprog; cbn in Hrun.
  2:{ injection Hrun as <-. cbn in Hdone. congruence. }
  unfold checked, mbind, M_bind in Hrun.
  destruct (get_method_name program) as [nm|] eqn:Hnm; cbn in Hrun;
    [|discriminate].
  destruct (method_meta program nm) as [meta|] eqn:Hmeta; cbn in Hrun;
    [|discriminate].
  match type of Hrun with
  | context [setup_planned_buffers ?av ?sizes ?p ?s0] =>
      destruct (setup_planned_buffers av sizes p s0) as [p1 s1|e s1|s1|]
        eqn:Hsetup; [|discriminate..];
      pose proof (setup_planned_buffers_Returns _ _ _ _ _ _ Hsetup) as Hfit;
      rewrite (setup_planned_buffers_fits _ _ _ _ Hfit) in Hsetup;
      injection Hsetup as <- <-
  end.
  cbn in Hrun.
  set (planned := new_spans (fresh s) (memory_planned_buffer_size meta)) in *.
  unfold assign_method, mbind, M_bind in Hrun. cbn in Hrun.
  destruct (load_method program nm) eqn:Hload.
  2:{ destruct (method (this s)); cbn in Hrun; discriminate. }
  exists file, program, nm, meta. do 6 (split; [done|]). cbn zeta.
  match type of Hrun with
  | (match ?m with _ => _ end) = _ =>
      assert (exists s1, m = Returns tt s1
                /\ this s1 = set_method
                     (Some (value {| of_program := file; of_method := nm;
                                     planned_memory := planned |}))
                     (set_method_name (Some nm)
                        (set_model_path (Some file) (this s)))
                /\ arrays s1 = arrays s ++ map array_of planned
                /\ calls s1 = calls s
                      ++ [g_strdup file; call_FileDataLoader_from file;
                          call_Program_load file]
                      ++ map allocation_of planned
                      ++ [call_load_method nm]
                      ++ release_of_method (method (this s)))
        as (s1 & Hs1 & Hthis1 & Harr1 & Hcalls1)
  end.
  { destruct (method (this s)); cbn; eexists; (split; [reflexivity|]); cbn;
      rewrite <- ?app_assoc; cbn; rewrite ?app_nil_r; auto. }
  rewrite Hs1 in Hrun. cbn in Hrun.
  match type of Hrun with
  | destroy_planned_buffers _ ?s2 = _ =>
      destruct (destroy_planned_buffers_spec planned s2)
        as (s3 & Hs3 & Hthis3 & _ & Hcalls3 & Harr3)
  end.
  rewrite Hs3 in Hrun. injection Hrun as <-. cbn in *.
  rewrite Hthis3, Hthis1. cbn. split; [reflexivity|].
  split.
  { rewrite Hcalls3, Hcalls1.
    repeat (rewrite <- app_assoc; cbn). reflexivity. }
  intros a. by rewrite Harr3, Harr1.
Qed.



Lemma extends_cleanup : preserves extends cleanup.
Proof. unfold cleanup. preserve. Qed.

Lemma extends_destroy_planned_buffers planned :
  preserves extends (destroy_planned_buffers planned).
Proof.
  induction planned as [|b rest IH]; cbn [destroy_planned_buffers]; preserve.
Qed.

Lemma extends_setup_planned_buffers av sizes : forall planned,
  preserves extends (setup_planned_buffers av sizes planned).
Proof.
  pose proof extends_destroy_planned_buffers.
  induction sizes as [|sz rest IH]; intros planned; cbn [setup_planned_buffers];
    unfold unwinding; preserve.
Qed.

Lemma extends_assign_method m : preserves extends (assign_method m).
Proof. unfold assign_method. preserve. Qed.

(** [configure_instance] only ever adds calls to those already made. *)
Lemma extends_configure_instance :
  preserves extends (configure_instance rt prop).
Proof.
  unfold configure_instance.
  pose proof extends_cleanup. pose proof extends_setup_planned_buffers.
  pose proof extends_destroy_planned_buffers. pose proof extends_assign_method.
  preserve.
Qed.

End Configure.

Lemma filter_allocation_of l :
  List.filter is_allocation (map allocation_of l) = map allocation_of l.
Proof. induction l; cbn; [done | by rewrite IHl]. Qed.

Lemma filter_allocation_release_of l :
  List.filter is_allocation (map release_of l) = [].
Proof. induction l; cbn; done. Qed.

Lemma filter_release_of l :
  List.filter is_release (map release_of l) = map release_of l.
Proof. induction l; cbn; [done | by rewrite IHl]. Qed.

Lemma filter_release_allocation_of l :
  List.filter is_release (map allocation_of l) = [].
Proof. induction l; cbn; done. Qed.

(** The sibling path of the early return: an invalid path is thrown out
    through the handler, which cleans up. *)
Lemma configure_invalid_path rt prop s file :
  model_files prop !! 0%nat = Some file ->
  g_file_test rt file = false ->
  exists what s',
    configure_instance rt prop s = Throws (invalid_argument what) s'
    /\ configured (this s') = false
    /\ model_path (this s') = None.
Proof.
  intros Hfile Htest.
  destruct (configure_entry rt prop s) as [-> Hc].
  unfold configure_instance, try_catch.
  unfold mbind at 1 2, M_bind at 1 2. cbn. rewrite Hc, Hfile, Htest. cbn.
  unfold mbind, M_bind. rewrite (cleanup_not_configured _ Hc). cbn.
  eexists _, _. split; [reflexivity|]. cbn. by rewrite Hc.
Qed.

(** The destructor is [cleanup] followed by the release of [method]. *)
Lemma destructor_releases_method s :
  configured (this s) = true ->
  exists s',
    delete_executorch_subplugin s = Returns tt s'
    /\ this s' = set_method None (this (torn_down s))
    /\ calls s' = calls (torn_down s) ++ release_of_method (method (this s)).
Proof.
  intros Hc. unfold delete_executorch_subplugin.
  unfold mbind at 1, M_bind at 1. rewrite (cleanup_configured s Hc).
  unfold mbind, M_bind, torn_down. cbn.
  destruct (method (this s)); cbn; eexists; (split; [reflexivity|]); cbn;
    rewrite ?app_nil_r; split; reflexivity.
Qed.

(** ** The claims *)

Example configured_state_eq :
  configure_instance sample_runtime (prop_of "model.pte") initial_state
  = Returns tt configured_state.
Proof. vm_compute. reflexivity. Qed.

Example configured_state_is_configured :
  this configured_state
  = {| configured := true; model_path := Some "model.pte"%string;
       inputInfo := gst_tensors_info_init; outputInfo := gst_tensors_info_init;
       method := Some (value {| of_program := "model.pte"; of_method := "forward";
                                planned_memory :=
                                  [ {| span_array := 0; span_size := 1024 |};
                                    {| span_array := 1; span_size := 4096 |} ] |});
       method_name := Some "forward"%string |}.
Proof. vm_compute. reflexivity. Qed.

(** C4 fails on the code.  [invoke] never tests [configured].  On an instance
    that was never configured [method] owns nothing, and [method->ok ()]
    dereferences it: undefined behaviour, not an error.  On an instance whose
    reconfiguration failed (here: the path is no regular file) [method] still
    owns the method of the previous configuration: the instance is not
    configured, and [invoke] goes on to execute the engine. *)
Theorem invoke_on_unconfigured_instance :
  (forall ndebug limit eng input output arrays fresh calls,
     invoke ndebug limit eng (Some input) (Some output)
       {| this := new_executorch_subplugin; arrays := arrays; fresh := fresh;
          calls := calls |} = Undefined)
  /\ exists what s2 s3,
       configure_instance sample_runtime (prop_of "missing.pte") configured_state
         = Throws (invalid_argument what) s2
       /\ configured (this s2) = false
       /\ invoke false 16 healthy_engine (Some one_memory) (Some one_memory) s2
          = Returns tt s3
       /\ calls s3 = calls s2 ++ [call_execute].
Proof.
  split; [reflexivity|].
  eexists _, _, _. split; [vm_compute; reflexivity|].
  split; [reflexivity|]. split; vm_compute; reflexivity.
Qed.

(** C9 fails on the code.  [notes.txt] is a regular file that does not parse
    as a program: [configure_instance] returns at line 176, without throwing
    and without calling [cleanup]; the instance is not configured and still
    holds the copy of the path; nothing was freed. *)
Theorem configure_early_return_keeps_model_path :
  exists s',
    configure_instance sample_runtime (prop_of "notes.txt") initial_state
      = Returns tt s'
    /\ configured (this s') = false
    /\ model_path (this s') = Some "notes.txt"%string
    /\ calls s' = [g_strdup "notes.txt"; call_FileDataLoader_from "notes.txt";
                   call_Program_load "notes.txt"].
Proof.
  eexists. split; [vm_compute; reflexivity|]. repeat split.
Qed.

(** C6 fails on the code.  A successful [configure_instance] does allocate
    one array per planned-buffer size, in the declared order and once; but
    the vector that owns them is a local of the [try] block, so every one of
    them is deleted again before the call returns: the loaded method is left
    with spans on arrays that are no longer alive. *)
Theorem planned_buffers_released_when_configure_returns
    (rt : Runtime) (prop : GstTensorFilterProperties) (s s' : state) :
  configure_instance rt prop s = Returns tt s' ->
  configured (this s') = true ->
  exists file program nm meta m added,
    model_files prop !! 0%nat = Some file
    /\ Program_load rt file = value program
    /\ get_method_name program = value nm
    /\ method_meta program nm = value meta
    /\ method (this s') = Some (value m)
    /\ map span_size (planned_memory m)
       = map to_size_t (memory_planned_buffer_size meta)
    /\ calls s' = calls s ++ added
    /\ List.filter is_allocation added = map allocation_of (planned_memory m)
    /\ List.filter is_release added = map release_of (planned_memory m)
    /\ Forall (dangling s') (planned_memory m).
Proof.
  intros Hrun Hdone.
  destruct (configure_entry rt prop s) as [Heq Hc]. rewrite Heq in Hrun.
  destruct (configure_success_not_configured rt prop _ _ Hc Hrun Hdone)
    as (file & program & nm & meta & Hfile & _ & Hprog & Hnm & Hmeta & _ & H).
  cbn zeta in H. destruct H as (Hthis & Hcalls & Harr).
  set (planned := new_spans (fresh (entry_state s))
                    (memory_planned_buffer_size meta)) in *.
  assert (Hentry : exists pre, calls (entry_state s) = calls s ++ pre
                    /\ List.filter is_allocation pre = []
                    /\ List.filter is_release pre = []).
  { unfold entry_state. destruct (configured (this s)).
    - eexists. split; [reflexivity|]. split; reflexivity.
    - exists []. rewrite app_nil_r. split; [reflexivity|]. split; reflexivity. }
  destruct Hentry as (pre & Hpre & Hpre_a & Hpre_r).
  eexists file, program, nm, meta, _, _.
  do 4 (split; [eassumption|]).
  split; [by rewrite Hthis|]. cbn.
  split; [apply new_spans_sizes|].
  split; [rewrite Hcalls, Hpre, <- app_assoc; reflexivity|].
  assert (Hold_a : forall o, List.filter is_allocation (release_of_method o) = [])
    by (by intros []).
  assert (Hold_r : forall o, List.filter is_release (release_of_method o) = [])
    by (by intros []).
  split.
  { rewrite !List.filter_app, Hpre_a, Hold_a, filter_allocation_of,
      filter_allocation_release_of. cbn. by rewrite app_nil_r. }
  split.
  { rewrite !List.filter_app, Hpre_r, Hold_r, filter_release_of,
      filter_release_allocation_of. cbn. reflexivity. }
  apply Forall_forall. intros sp Hsp. unfold dangling, alive.
  intros Halive. apply list_elem_of_fmap in Halive as (a & Ha1 & Ha).
  apply Harr in Ha as [_ Hnot]. apply Hnot. rewrite <- Ha1.
  apply list_elem_of_fmap. by exists sp.
Qed.

Lemma planned_buffers_released_for_forward_program :
  configure_instance sample_runtime (prop_of "model.pte") initial_state
    = Returns tt configured_state
  /\ configured (this configured_state) = true
  /\ exists m added,
       method (this configured_state) = Some (value m)
       /\ map span_size (planned_memory m) = [1024; 4096]
       /\ calls configured_state = calls initial_state ++ added
       /\ List.filter is_allocation added = map allocation_of (planned_memory m)
       /\ List.filter is_release added = map release_of (planned_memory m)
       /\ Forall (dangling configured_state) (planned_memory m)
       /\ arrays configured_state = [].
Proof.
  split; [vm_compute; reflexivity|]. split; [reflexivity|].
  destruct (planned_buffers_released_when_configure_returns
              sample_runtime (prop_of "model.pte") initial_state configured_state
              ltac:(vm_compute; reflexivity) eq_refl)
    as (file & program & nm & meta & m & added & Hfile & Hprog & Hnm & Hmeta
        & Hm & Hsizes & Hcalls & Halloc & Hrel & Hdangling).
  exists m, added. split; [exact Hm|].
  injection Hfile as <-. vm_compute in Hprog. injection Hprog as <-.
  injection Hnm as <-. injection Hmeta as <-.
  split; [exact Hsizes|]. split; [exact Hcalls|]. split; [exact Halloc|].
  split; [exact Hrel|]. split; [exact Hdangling|]. reflexivity.
Defined.

Section EngineFailure.

Variable NDEBUG : bool.
Variable limit : Z.
Variable eng : Engine.

Lemma assert_never_throws cond s e s' : assert NDEBUG cond s <> Throws e s'.
Proof. unfold assert. by destruct (NDEBUG || cond). Qed.

Lemma set_inputs_never_throws input todo : forall i s e s',
  set_inputs NDEBUG limit eng input todo i s <> Throws e s'.
Proof.
  induction todo as [|todo IH]; intros i s e s'; cbn; [done|].
  unfold mbind, M_bind, nth_info_type, at_index, assert. cbn.
  destruct (Z.of_nat i <? limit); [|done]. cbn.
  destruct (input !! i); [|done]. cbn.
  destruct (NDEBUG || is_Ok (set_input eng i)); [|done]. cbn. apply IH.
Qed.

End EngineFailure.

(** C5 as stated fails: on the configured instance, an engine whose
    [execute] reports an error makes [invoke] abort the process; nothing is
    thrown to the caller and the call does not return. *)
Lemma engine_failure_not_propagated :
  (exists s', invoke false 16 failing_engine (Some one_memory) (Some one_memory)
                configured_state = Aborts s')
  /\ ~ (exists e s', invoke false 16 failing_engine (Some one_memory)
                       (Some one_memory) configured_state = Throws e s'
                     /\ configured (this s') = true).
Proof.
  split; [eexists; vm_compute; reflexivity|].
  intros (e & s' & H & _). vm_compute in H. discriminate.
Qed.

(** C5, amended.  When the engine's [execute] reports an error, [invoke]
    neither returns nor throws: once the inputs are bound and [execute] was
    called, [ET_CHECK_MSG] aborts the process.  Up to that point [invoke] has
    changed nothing of the instance, which is configured as it was. *)
Theorem engine_failure_aborts
    (ndebug : bool) (limit : Z) (eng : Engine)
    (input output : list GstTensorMemory) (s : state) (m : Method) :
  method (this s) = Some (value m) ->
  is_Ok (execute eng) = false ->
  (forall s1,
     set_inputs ndebug limit eng input
       (Z.to_nat (num_tensors (inputInfo (this s)))) 0%nat s = Returns tt s1 ->
     invoke ndebug limit eng (Some input) (Some output) s
     = Aborts {| this := this s; arrays := arrays s1; fresh := fresh s1;
                 calls := calls s1 ++ [call_execute] |})
  /\ (forall s', invoke ndebug limit eng (Some input) (Some output) s
                 <> Returns tt s')
  /\ (forall e s', invoke ndebug limit eng (Some input) (Some output) s
                   <> Throws e s')
  /\ (forall s', invoke ndebug limit eng (Some input) (Some output) s = Aborts s'
                 -> untouched s s').
Proof.
  intros Hm Hfail.
  assert (Hshape :
    invoke ndebug limit eng (Some input) (Some output) s
    = match set_inputs ndebug limit eng input
              (Z.to_nat (num_tensors (inputInfo (this s)))) 0%nat s with
      | Returns _ s1 => Aborts {| this := this s1; arrays := arrays s1;
                                   fresh := fresh s1;
                                   calls := calls s1 ++ [call_execute] |}
      | Throws e s1 => Throws e s1
      | Aborts s1 => Aborts s1
      | Undefined => Undefined
      end).
  { unfold invoke, mbind, M_bind. cbn. rewrite Hm, Hfail.
    destruct (set_inputs _ _ _ _ _ _ s); reflexivity. }
  pose proof (untouched_set_inputs ndebug limit eng input
                (Z.to_nat (num_tensors (inputInfo (this s)))) 0%nat s) as Hkeep.
  pose proof (set_inputs_never_throws ndebug limit eng input
                (Z.to_nat (num_tensors (inputInfo (this s)))) 0%nat s) as Hno.
  split; [|split; [|split]].
  - intros s1 Hs1. rewrite Hshape, Hs1.
    destruct (Hkeep s1) as (-> & _); [by rewrite Hs1|]. reflexivity.
  - intros s'. rewrite Hshape. by destruct (set_inputs _ _ _ _ _ _ s).
  - intros e s'. rewrite Hshape.
    destruct (set_inputs _ _ _ _ _ _ s); done.
  - intros s' H.
    apply (untouched_invoke ndebug limit eng (Some input) (Some output) s).
    by rewrite H.
Qed.

Lemma engine_failure_aborts_on_configured_instance :
  method (this configured_state)
    = Some (value {| of_program := "model.pte"; of_method := "forward";
                     planned_memory := [ {| span_array := 0; span_size := 1024 |};
                                         {| span_array := 1; span_size := 4096 |} ] |})
  /\ is_Ok (execute failing_engine) = false
  /\ invoke false 16 failing_engine (Some one_memory) (Some one_memory)
       configured_state
     = Aborts {| this := this configured_state;
                 arrays := arrays configured_state;
                 fresh := fresh configured_state;
                 calls := calls configured_state ++ [call_execute] |}.
Proof.
  split; [reflexivity|]. split; [reflexivity|].
  exact (proj1 (engine_failure_aborts false 16 failing_engine one_memory
                  one_memory configured_state _ eq_refl eq_refl)
           configured_state eq_refl).
Defined.

(** C8 as stated fails: [cleanup] does not release [method].  When the
    configured instance is configured again with the same model, the method
    of the first configuration is deleted only once the arrays of the second
    were made and its method was loaded; when it is configured again with a
    path that is no regular file, the call throws and the instance, no longer
    configured, still owns the method of the first configuration. *)
Lemma old_method_outlives_teardown :
  exists old,
    method (this configured_state) = Some old
    /\ (exists s',
          configure_instance sample_runtime (prop_of "model.pte") configured_state
            = Returns tt s'
          /\ calls s' = calls configured_state
               ++ [g_free (Some "model.pte"%string);
                   gst_tensors_info_free; gst_tensors_info_free;
                   g_strdup "model.pte"; call_FileDataLoader_from "model.pte";
                   call_Program_load "model.pte";
                   make_unique_array 2 1024; make_unique_array 3 4096;
                   call_load_method "forward";
                   delete_method old;
                   delete_array 2; delete_array 3])
    /\ (exists what s',
          configure_instance sample_runtime (prop_of "missing.pte") configured_state
            = Throws (invalid_argument what) s'
          /\ configured (this s') = false
          /\ method (this s') = Some old
          /\ calls s' = calls configured_state
               ++ [g_free (Some "model.pte"%string);
                   gst_tensors_info_free; gst_tensors_info_free;
                   g_free None]).
Proof.
  eexists. split; [reflexivity|]. split.
  - eexists. split; vm_compute; reflexivity.
  - eexists _, _. split; [vm_compute; reflexivity|]. repeat split.
Qed.

(** C8, amended.  [configure_instance] on a configured instance first runs
    [cleanup], the body of the destructor: the model path and the shape
    metadata are released and the method name and the configured flag are
    cleared before anything of the new configuration is acquired; [method]
    is not touched by it.  The call then goes on as on an instance that was
    not configured, and when it succeeds, the method of the previous
    configuration is deleted as the newly loaded one is stored, after the
    buffers of the new configuration were set up. *)
Theorem reconfigure_runs_cleanup_first
    (rt : Runtime) (prop : GstTensorFilterProperties) (s : state) :
  configured (this s) = true ->
  exists s0,
    cleanup s = Returns tt s0
    /\ calls s0 = calls s ++ [g_free (model_path (this s));
                              gst_tensors_info_free; gst_tensors_info_free]
    /\ this s0 = {| configured := false; model_path := None;
                    inputInfo := gst_tensors_info_init;
                    outputInfo := gst_tensors_info_init;
                    method := method (this s); method_name := None |}
    /\ configure_instance rt prop s = configure_instance rt prop s0
    /\ (forall s', final_state (configure_instance rt prop s) = Some s' ->
                   extends s0 s')
    /\ (forall s',
          configure_instance rt prop s = Returns tt s' ->
          configured (this s') = true ->
          exists file nm planned,
            this s' = {| configured := true; model_path := Some file;
                         inputInfo := gst_tensors_info_init;
                         outputInfo := gst_tensors_info_init;
                         method := Some (value {| of_program := file;
                                                  of_method := nm;
                                                  planned_memory := planned |});
                         method_name := Some nm |}
            /\ calls s' = calls s0
                 ++ [g_strdup file; call_FileDataLoader_from file;
                     call_Program_load file]
                 ++ map allocation_of planned
                 ++ [call_load_method nm]
                 ++ release_of_method (method (this s))
                 ++ map release_of planned).
Proof.
  intros Hc. exists (torn_down s).
  split; [by apply cleanup_configured|].
  split; [reflexivity|]. split; [reflexivity|].
  destruct (configure_entry rt prop s) as [Heq _].
  unfold entry_state in Heq. rewrite Hc in Heq.
  split; [exact Heq|]. rewrite Heq.
  split; [apply extends_configure_instance|].
  intros s' Hrun Hdone.
  destruct (configure_success_not_configured rt prop (torn_down s) s'
              eq_refl Hrun Hdone)
    as (file & program & nm & meta & _ & _ & _ & _ & _ & _ & H).
  cbn zeta in H. destruct H as (Hthis & Hcalls & _).
  eexists file, nm, _. split; [exact Hthis|exact Hcalls].
Qed.

Lemma reconfigure_runs_cleanup_first_on_configured_instance :
  configured (this configured_state) = true
  /\ exists s0,
       cleanup configured_state = Returns tt s0
       /\ calls s0 = calls configured_state
            ++ [g_free (Some "model.pte"%string);
                gst_tensors_info_free; gst_tensors_info_free]
       /\ model_path (this s0) = None
       /\ configured (this s0) = false
       /\ method (this s0) = method (this configured_state)
       /\ configure_instance sample_runtime (prop_of "model.pte") configured_state
          = configure_instance sample_runtime (prop_of "model.pte") s0.
Proof.
  split; [reflexivity|].
  destruct (reconfigure_runs_cleanup_first sample_runtime (prop_of "model.pte")
              configured_state eq_refl)
    as (s0 & Hclean & Hcalls & Hthis & Heq & _).
  exists s0. split; [exact Hclean|]. split; [exact Hcalls|].
  rewrite Hthis. repeat split. exact Heq.
Defined.

End FilterProps.

(** * Further properties of the converter *)

Module ConverterExtra.
Import Flatbuf ConverterSpec DecodeSpec ConverterProps.

Section Turns.

Variable limit : Z.
Variable rank : nat.
Variable in_mem : GstMemory.

(** A turn completes exactly on a readable tensor at a position below the
    limit, and then makes the step [tensor_step] describes. *)
Lemma convert_tensor_iff ts i s s' :
  convert_tensor limit rank in_mem ts i s = Done s' <->
  exists t, ts !! i = Some t
    /\ readable_tensor rank t = true
    /\ Z.of_nat i < limit
    /\ s' = tensor_step in_mem rank i t s.
Proof.
  unfold convert_tensor, Get, gst_tensors_info_get_nth_info, read_dimension,
    readable_tensor, tensor_step, decoded_info, tensor_calls, emitted_view.
  split.
  - destruct (ts !! i) as [t|]; cbn; [|discriminate].
    destruct (fbs.name t) eqn:Hn; cbn; [|discriminate].
    destruct (Z.ltb_spec (Z.of_nat i) limit); cbn; [|discriminate].
    destruct (fbs.dimension t) as [dims|] eqn:Hdims; cbn; [|discriminate].
    destruct (decide (rank <= List.length dims)%nat); cbn; [|discriminate].
    intros [= <-]. exists t. rewrite Hn, Hdims. cbn.
    split; [reflexivity|]. split; [by apply bool_decide_eq_true|].
    split; [assumption|reflexivity].
  - intros (t & -> & Hc & Hi & ->). cbn.
    destruct (fbs.name t); [|discriminate]. cbn.
    destruct (Z.ltb_spec (Z.of_nat i) limit); [|lia]. cbn.
    destruct (fbs.dimension t) as [dims|]; [|discriminate]. cbn.
    apply bool_decide_eq_true in Hc.
    destruct (decide (rank <= List.length dims)%nat); [|contradiction].
    reflexivity.
Qed.

Lemma bind_Done {A B} (m : outcome A) (k : A -> outcome B) b :
  m ≫= k = Done b <-> exists a, m = Done a /\ k a = Done b.
Proof.
  unfold mbind, outcome_bind, bind. destruct m as [a|f]; split.
  - intros H. by exists a.
  - by intros (a' & [= <-] & H).
  - discriminate.
  - by intros (a' & [=] & _).
Qed.

(** The loop completes exactly when the tensors of its turns are there, are
    readable and lie below the limit, and then has made their steps in
    order. *)
Lemma convert_loop_iff ts todo : forall i s s',
  convert_loop limit rank in_mem ts todo i s = Done s' <->
  (todo = 0%nat
   \/ (i + todo <= List.length ts)%nat /\ Z.of_nat (i + todo) <= limit)
  /\ forallb (readable_tensor rank) (take todo (drop i ts)) = true
  /\ s' = run_turns in_mem rank i (take todo (drop i ts)) s.
Proof.
  induction todo as [|todo IH]; intros i s s'; cbn [convert_loop].
  - rewrite take_0. cbn. split.
    + intros [= <-]. auto.
    + by intros (_ & _ & ->).
  - rewrite bind_Done. split.
    + intros (s1 & H1 & Hrest).
      apply convert_tensor_iff in H1 as (t & Ht & Hc & Hi & ->).
      apply IH in Hrest as (Hbound & Hall & ->).
      rewrite (drop_S _ _ _ Ht). cbn. rewrite Hc, Hall.
      pose proof (lookup_lt_Some _ _ _ Ht).
      split; [right; lia|]. split; reflexivity.
    + intros ([|[Hlen Hlim]] & Hall & ->); [discriminate|].
      destruct (lookup_lt_is_Some_2 ts i) as [t Ht]; [lia|].
      rewrite (drop_S _ _ _ Ht) in *. cbn in Hall.
      apply andb_prop in Hall as [Hc Hall].
      exists (tensor_step in_mem rank i t s). split.
      * apply convert_tensor_iff. exists t. repeat split; auto. lia.
      * apply IH. split; [|by split].
        destruct todo; [by left | right; lia].
Qed.


Lemma run_turns_calls ts : forall i s,
  ls_calls (run_turns in_mem rank i ts s) = ls_calls s ++ turns_calls in_mem i ts.
Proof.
  induction ts as [|t rest IH]; intros i s; cbn [run_turns turns_calls].
  - by rewrite app_nil_r.
  - rewrite IH. cbn [tensor_step ls_calls]. by rewrite <- app_assoc.
Qed.


(** On a mapped memory, a run returns a buffer exactly when the envelope is
    decodable, and then returns [decode_result]. *)
Lemma fbc_convert_Some_iff b c r :
  gst_buffer_peek_memory b 0 = Some in_mem ->
  mappable in_mem = true ->
  fbc_convert limit rank (Some b) (Some c) = Done r /\ is_Some (out_buf r) <->
  decodable limit rank (GetTensors in_mem) = true
  /\ exists f, fbs.fr (GetTensors in_mem) = Some f
               /\ r = decode_result rank b c in_mem f.
Proof.
  intros Hpeek Hmap. unfold fbc_convert, decodable, decode_result, turns.
  rewrite Hpeek, Hmap. cbn [negb].
  set (e := GetTensors in_mem).
  destruct (Z.gtb_spec (fbs.num_tensor e) limit) as [Hover|Hle].
  { split.
    - intros [[= <-] [? [=]]].
    - intros [H _]. repeat (apply andb_prop in H as [H ?]).
      apply bool_decide_eq_true in H. lia. }
  destruct (fbs.fr e) as [f|] eqn:Hfr.
  2:{ split; [intros [[=] _]|].
      intros [H _]. repeat (apply andb_prop in H as [H ?]).
      repeat match goal with
             | H : bool_decide _ = true |- _ => apply bool_decide_eq_true in H
             end.
      by destruct H2. }
  cbn [deref]. rewrite !andb_true_iff, !bool_decide_eq_true.
  split.
  - intros [Hrun Hout]. apply bind_Done in Hrun as (fr & [= <-] & Hrun).
    apply bind_Done in Hrun as (s & Hloop & [= <-]).
    apply convert_loop_iff in Hloop as (Hbound & Hall & ->).
    cbn in Hbound, Hall. rewrite drop_0 in Hall.
    split.
    + split; [split; [split; [split|]|]|]; auto.
      * destruct Hbound as [->|[? _]]; lia.
      * destruct Hbound as [|[_ ?]]; [by left | by right].
    + exists f. split; [reflexivity|]. cbn. by rewrite drop_0.
  - intros [((((_ & _) & Hlen) & Hall) & Hlim) (f' & [= <-] & ->)].
    split; [|by eexists].
    apply bind_Done. exists f. split; [reflexivity|].
    apply bind_Done. eexists. split; [|reflexivity].
    apply convert_loop_iff. cbn. rewrite drop_0.
    split; [|by split].
    destruct Hlim as [?|?]; [by left | right; split; [lia|assumption]].
Qed.

Lemma turns_calls_construct ts : forall i,
  forallb (fun k => negb (is_map_or_unmap k)) (turns_calls in_mem i ts) = true
  /\ (call_buffer_new ∉ turns_calls in_mem i ts)
  /\ List.length (List.filter constructs_output (turns_calls in_mem i ts))
     = (2 * List.length ts)%nat.
Proof.
  induction ts as [|t rest IH]; intros i; cbn.
  - split; [reflexivity|]. split; [apply not_elem_of_nil | reflexivity].
  - destruct (IH (S i)) as (H1 & H2 & H3). split; [exact H1|].
    split; [|rewrite H3; lia].
    rewrite !not_elem_of_cons. repeat split; try discriminate. exact H2.
Qed.

End Turns.

(** The ways a run returns: three that return NULL without mapping a
    memory, one that returns NULL after the limit test, and one that returns
    a buffer. *)
Lemma fbc_convert_cases limit rank in_buf cfg r :
  fbc_convert limit rank in_buf cfg = Done r ->
  (out_buf r = None
   /\ config r = cfg
   /\ (exists msg, calls r = [loge msg])
   /\ (in_buf = None \/ cfg = None
       \/ exists b, in_buf = Some b /\ gst_buffer_peek_memory b 0 = None))
  \/ (exists b c in_mem,
        in_buf = Some b /\ cfg = Some c
        /\ gst_buffer_peek_memory b 0 = Some in_mem
        /\ ((mappable in_mem = false
             /\ out_buf r = None
             /\ config r = cfg
             /\ exists msg, calls r = [gst_memory_map (mem_id in_mem); loge msg])
            \/ (mappable in_mem = true
                /\ fbs.num_tensor (GetTensors in_mem) > limit
                /\ out_buf r = None
                /\ exists msg, calls r = [gst_memory_map (mem_id in_mem);
                                          loge msg;
                                          gst_memory_unmap (mem_id in_mem)])
            \/ (mappable in_mem = true
                /\ decodable limit rank (GetTensors in_mem) = true
                /\ exists f, fbs.fr (GetTensors in_mem) = Some f
                             /\ r = decode_result rank b c in_mem f))).
Proof.
  intros Hrun.
  destruct in_buf as [b|]; [|injection Hrun as <-; left; eauto 10].
  destruct cfg as [c|];
    [|injection Hrun as <-; left; cbn; eauto 10].
  destruct (gst_buffer_peek_memory b 0) as [in_mem|] eqn:Hpeek.
  2:{ unfold fbc_convert in Hrun. rewrite Hpeek in Hrun.
      injection Hrun as <-. left. cbn. eauto 10. }
  right. exists b, c, in_mem.
  split; [reflexivity|]. split; [reflexivity|]. split; [exact Hpeek|].
  destruct (mappable in_mem) eqn:Hmap.
  2:{ unfold fbc_convert in Hrun. rewrite Hpeek, Hmap in Hrun.
      injection Hrun as <-. left. cbn. eauto 10. }
  right.
  destruct (Z.gtb_spec (fbs.num_tensor (GetTensors in_mem)) limit) as [Hover|Hle].
  - left. unfold fbc_convert in Hrun. rewrite Hpeek, Hmap in Hrun.
    cbn [negb] in Hrun.
    destruct (Z.gtb_spec (fbs.num_tensor (GetTensors in_mem)) limit); [|lia].
    injection Hrun as <-. cbn. split; [done|]. split; [lia|]. eauto.
  - right. split; [done|].
    apply (fbc_convert_Some_iff limit rank in_mem b c r Hpeek Hmap).
    split; [exact Hrun|].
    unfold fbc_convert in Hrun. rewrite Hpeek, Hmap in Hrun.
    cbn [negb] in Hrun.
    destruct (Z.gtb_spec (fbs.num_tensor (GetTensors in_mem)) limit); [lia|].
    apply bind_Done in Hrun as (f & _ & Hrun).
    apply bind_Done in Hrun as (s & _ & [= <-]). by eexists.
Qed.

(** A buffer that comes back is [decode_result]. *)
Lemma returned_buffer_inv limit rank b c in_mem r out :
  gst_buffer_peek_memory b 0 = Some in_mem ->
  fbc_convert limit rank (Some b) (Some c) = Done r ->
  out_buf r = Some out ->
  mappable in_mem = true
  /\ decodable limit rank (GetTensors in_mem) = true
  /\ exists f, fbs.fr (GetTensors in_mem) = Some f
               /\ r = decode_result rank b c in_mem f.
Proof.
  intros Hpeek Hrun Hout.
  destruct (fbc_convert_cases _ _ _ _ _ Hrun)
    as [(Hnone & _)|(b' & c' & m & [= <-] & [= <-] & Hpeek' & H)];
    [congruence|].
  rewrite Hpeek in Hpeek'. injection Hpeek' as <-.
  destruct H as [(_ & Hnone & _)|[(_ & _ & Hnone & _)|H]];
    [congruence | congruence | exact H].
Qed.







(** X4.  When a buffer comes back, the host was called as follows, and only so:
    the memory was mapped, the buffer created, then for each tensor in order
    its old name freed, its window shared from the input memory and appended,
    then the metadata copied and the memory unmapped. *)
Theorem decoding_calls_in_order
    (limit : Z) (rank : nat) (b : GstBuffer GstMemory) (c : GstTensorsConfig)
    (in_mem : GstMemory) (r : returned) (out : GstBuffer SharedMemory) :
  gst_buffer_peek_memory b 0 = Some in_mem ->
  fbc_convert limit rank (Some b) (Some c) = Done r ->
  out_buf r = Some out ->
  calls r
  = [gst_memory_map (mem_id in_mem); call_buffer_new]
    ++ turns_calls in_mem 0
         (take (turns (GetTensors in_mem)) (fbs.tensor (GetTensors in_mem)))
    ++ [call_copy_into; gst_memory_unmap (mem_id in_mem)].
Proof.
  intros Hpeek Hrun Hout.
  destruct (returned_buffer_inv _ _ _ _ _ _ _ Hpeek Hrun Hout)
    as (_ & _ & f & _ & ->).
  cbn. rewrite run_turns_calls. cbn. reflexivity.
Qed.

Lemma decoding_calls_in_order_scenario :
  exists r out,
    gst_buffer_peek_memory (source_buffer 8192 scenario_envelope) 0
      = Some (source_memory 8192 scenario_envelope)
    /\ fbc_convert 16 4 (Some (source_buffer 8192 scenario_envelope))
         (Some empty_config) = Done r
    /\ out_buf r = Some out
    /\ calls r
       = [gst_memory_map 1; call_buffer_new;
          g_free_name 0; gst_memory_share 1 64 48; call_append_memory;
          g_free_name 1; gst_memory_share 1 112 10; call_append_memory;
          call_copy_into; gst_memory_unmap 1].
Proof.
  eexists _, _. split; [reflexivity|]. split; [reflexivity|].
  split; [reflexivity|].
  exact (decoding_calls_in_order 16 4 (source_buffer 8192 scenario_envelope)
           empty_config (source_memory 8192 scenario_envelope) _ _
           eq_refl eq_refl eq_refl).
Defined.



(** X6.  NULL comes back for five reasons only: a NULL argument (either one), a
    buffer without memory, a memory that cannot be mapped, a declared count
    above the limit. *)
Theorem null_returned_only_for
    (limit : Z) (rank : nat) (in_buf : option (GstBuffer GstMemory))
    (cfg : option GstTensorsConfig) (r : returned) :
  fbc_convert limit rank in_buf cfg = Done r ->
  out_buf r = None ->
  in_buf = None \/ cfg = None
  \/ exists b, in_buf = Some b
       /\ (gst_buffer_peek_memory b 0 = None
           \/ exists in_mem, gst_buffer_peek_memory b 0 = Some in_mem
                /\ (mappable in_mem = false
                    \/ fbs.num_tensor (GetTensors in_mem) > limit)).
Proof.
  intros Hrun Hnull.
  destruct (fbc_convert_cases _ _ _ _ _ Hrun)
    as [(_ & _ & _ & [|[|(b & -> & Hnone)]])
       |(b & c & m & -> & -> & Hpeek & H)]; eauto 6.
  right; right. exists b. split; [reflexivity|]. right. exists m.
  split; [exact Hpeek|].
  destruct H as [(? & _)|[(_ & ? & _)|(_ & _ & f & _ & ->)]];
    [by left | by right | discriminate].
Qed.

Lemma null_returned_only_for_over_limit :
  fbc_convert 16 4 (Some (source_buffer 8192 (declaring 17))) (Some empty_config)
  = Done {| out_buf := None;
            config := Some {| info := {| num_tensors := 17; format := 1;
                                         nth_info := ∅ |};
                              rate_n := 0; rate_d := 1 |};
            calls := [gst_memory_map 1; loge "The number of tensors is limited";
                      gst_memory_unmap 1] |}
  /\ exists b, Some (source_buffer 8192 (declaring 17)) = Some b
       /\ exists in_mem, gst_buffer_peek_memory b 0 = Some in_mem
            /\ fbs.num_tensor (GetTensors in_mem) > 16.
Proof.
  split; [reflexivity|].
  destruct (null_returned_only_for 16 4
              (Some (source_buffer 8192 (declaring 17))) (Some empty_config) _
              eq_refl eq_refl)
    as [H|[H|(b & Hb & [H|(m & Hm & [H|H])])]]; try discriminate.
  - injection Hb as <-. discriminate.
  - injection Hb as <-. injection Hm as <-. discriminate.
  - exists b. split; [exact Hb|]. exists m. split; [exact Hm|exact H].
Defined.

(** X7.  A buffer without memory, or whose first memory cannot be mapped, makes
    the converter return NULL; the config is as it was, nothing was unmapped
    and nothing constructed. *)
Theorem unmapped_input_returns_null
    (limit : Z) (rank : nat) (b : GstBuffer GstMemory) (c : GstTensorsConfig) :
  (gst_buffer_peek_memory b 0 = None
   \/ exists in_mem, gst_buffer_peek_memory b 0 = Some in_mem
                      /\ mappable in_mem = false) ->
  exists r,
    fbc_convert limit rank (Some b) (Some c) = Done r
    /\ out_buf r = None
    /\ config r = Some c
    /\ forallb (fun k => negb (constructs_output k)) (calls r) = true
    /\ forall m, gst_memory_unmap m ∉ calls r.
Proof.
  unfold fbc_convert. intros [->|(in_mem & -> & ->)]; cbn [negb].
  - eexists. split; [reflexivity|]. cbn. repeat split.
    intros m. rewrite !not_elem_of_cons. repeat split; try discriminate.
    apply not_elem_of_nil.
  - eexists. split; [reflexivity|]. cbn. repeat split.
    intros m. rewrite !not_elem_of_cons. repeat split; try discriminate.
    apply not_elem_of_nil.
Qed.

Lemma unmapped_input_returns_null_empty_buffer :
  (gst_buffer_peek_memory {| memory := []; metadata := metadata gst_buffer_new |} 0
     = None
   \/ exists in_mem,
        gst_buffer_peek_memory {| memory := []; metadata := metadata gst_buffer_new |} 0
          = Some in_mem /\ mappable in_mem = false)
  /\ exists r,
       fbc_convert 16 4
         (Some {| memory := []; metadata := metadata gst_buffer_new |})
         (Some empty_config) = Done r
       /\ out_buf r = None
       /\ config r = Some empty_config
       /\ forallb (fun k => negb (constructs_output k)) (calls r) = true
       /\ forall m, gst_memory_unmap m ∉ calls r.
Proof.
  split; [left; reflexivity|].
  apply (unmapped_input_returns_null 16 4). left; reflexivity.
Defined.




(** X9.  A memory that was mapped is unmapped before the converter returns, on
    the path that returns NULL as on the one that returns a buffer: the
    first call maps it, the last unmaps it, and no call between them maps or
    unmaps. *)
Theorem mapped_memory_is_unmapped
    (limit : Z) (rank : nat) (b : GstBuffer GstMemory) (c : GstTensorsConfig)
    (in_mem : GstMemory) (r : returned) :
  gst_buffer_peek_memory b 0 = Some in_mem ->
  mappable in_mem = true ->
  fbc_convert limit rank (Some b) (Some c) = Done r ->
  exists between,
    calls r = gst_memory_map (mem_id in_mem) :: between
              ++ [gst_memory_unmap (mem_id in_mem)]
    /\ forallb (fun k => negb (is_map_or_unmap k)) between = true.
Proof.
  intros Hpeek Hmap Hrun.
  destruct (fbc_convert_cases _ _ _ _ _ Hrun)
    as [(_ & _ & _ & [|[|(b' & [= <-] & Hnone)]])
       |(b' & c' & m & [= <-] & [= <-] & Hpeek' & H)]; try congruence.
  rewrite Hpeek in Hpeek'. injection Hpeek' as <-.
  destruct H as [(? & _)|[(_ & _ & _ & msg & ->)|(_ & _ & f & _ & ->)]];
    [congruence| |].
  - exists [loge msg]. split; reflexivity.
  - cbn. rewrite run_turns_calls. cbn.
    eexists (call_buffer_new :: _ ++ [call_copy_into]). split.
    + cbn. by rewrite <- app_assoc.
    + cbn. rewrite forallb_app. cbn. rewrite andb_true_r.
      apply (turns_calls_construct in_mem).
Qed.

Lemma mapped_memory_is_unmapped_over_limit :
  exists r between,
    gst_buffer_peek_memory (source_buffer 8192 (declaring 17)) 0
      = Some (source_memory 8192 (declaring 17))
    /\ mappable (source_memory 8192 (declaring 17)) = true
    /\ fbc_convert 16 4 (Some (source_buffer 8192 (declaring 17)))
         (Some empty_config) = Done r
    /\ calls r = gst_memory_map 1 :: between ++ [gst_memory_unmap 1]
    /\ forallb (fun k => negb (is_map_or_unmap k)) between = true.
Proof.
  destruct (mapped_memory_is_unmapped 16 4 (source_buffer 8192 (declaring 17))
              empty_config (source_memory 8192 (declaring 17)) _
              eq_refl eq_refl eq_refl) as (between & Hcalls & Hnone).
  eexists _, between. split; [reflexivity|]. split; [reflexivity|].
  split; [reflexivity|]. split; [exact Hcalls | exact Hnone].
Defined.

Lemma c_str_prefix s :
  has_nul (c_str s) = false
  /\ exists rest, s = (c_str s ++ rest)%string
       /\ (rest = EmptyString \/ exists r, rest = String Ascii.zero r).
Proof.
  induction s as [|ch s (IHnul & rest & IHeq & IHrest)]; cbn.
  - split; [reflexivity|]. exists EmptyString. auto.
  - destruct (Ascii.eqb_spec ch Ascii.zero) as [->|Hne]; cbn.
    + split; [reflexivity|]. exists (String Ascii.zero s). eauto.
    + apply Ascii.eqb_neq in Hne. rewrite Hne, IHnul.
      split; [reflexivity|]. exists rest.
      split; [|exact IHrest].
      change (String ch s = String ch (c_str s ++ rest)%string).
      f_equal. exact IHeq.
Qed.

Lemma c_str_no_nul s : has_nul s = false -> c_str s = s.
Proof.
  induction s as [|ch s IH]; cbn; [done|].
  intros H. apply orb_false_elim in H as [-> H]. by rewrite IH.
Qed.

(** X10.  The name stored for a tensor is a C string: what precedes the first NUL
    character of the envelope's name.  It is NULL exactly when nothing
    precedes it (the name is empty or begins with NUL); otherwise it is not
    empty and has no NUL in it; a name without NUL is stored as it is. *)
Theorem stored_name_is_c_string (s : string) :
  (strdup_nonempty s = None
   <-> s = EmptyString \/ exists r, s = String Ascii.zero r)
  /\ (forall n, strdup_nonempty s = Some n ->
        n <> EmptyString
        /\ has_nul n = false
        /\ exists rest, s = (n ++ rest)%string
             /\ (rest = EmptyString \/ exists r, rest = String Ascii.zero r))
  /\ (has_nul s = false -> s <> EmptyString -> strdup_nonempty s = Some s).
Proof.
  unfold strdup_nonempty. split; [|split].
  - destruct s as [|ch s]; cbn; [by split; auto|].
    destruct (Ascii.eqb_spec ch Ascii.zero) as [->|Hne]; cbn.
    + split; [intros _; right; by eexists | reflexivity].
    + split; [discriminate|]. intros [[=]|(r & [= -> _])]. contradiction.
  - intros n Hn. destruct (c_str_prefix s) as (Hnul & rest & Heq & Hrest).
    destruct (c_str s) as [|ch n'] eqn:Hc; [discriminate|].
    injection Hn as <-. split; [discriminate|]. split; [exact Hnul|].
    exists rest. by split.
  - intros Hnul Hne. rewrite (c_str_no_nul s Hnul).
    destruct s; [contradiction | reflexivity].
Qed.

Lemma stored_name_is_c_string_truncated :
  strdup_nonempty (String "a" (String Ascii.zero "b")) = Some "a"%string
  /\ ("a"%string <> EmptyString
      /\ has_nul "a" = false
      /\ exists rest, String "a" (String Ascii.zero "b") = ("a" ++ rest)%string
           /\ (rest = EmptyString \/ exists r, rest = String Ascii.zero r)).
Proof.
  split; [reflexivity|].
  exact (proj1 (proj2 (stored_name_is_c_string
                         (String "a" (String Ascii.zero "b"))))
           "a"%string eq_refl).
Defined.

End ConverterExtra.

(** * Further properties of the filter *)

Module FilterExtra.
Import Executorch ExecutorchInfo FilterSpec LifecycleSpec FilterProps.

(** ** [cleanup] and the destructor *)

(** X11.  [cleanup] always returns, and leaves an instance that is not configured
    and holds no model path; it touches neither [method] nor the arrays;
    the shape metadata and the method name are reset only if the instance
    was configured.  Run again, it changes nothing more of the instance. *)
Theorem cleanup_effect (s : state) :
  exists s',
    cleanup s = Returns tt s'
    /\ configured (this s') = false
    /\ model_path (this s') = None
    /\ method (this s') = method (this s)
    /\ arrays s' = arrays s
    /\ (configured (this s) = false ->
        inputInfo (this s') = inputInfo (this s)
        /\ outputInfo (this s') = outputInfo (this s)
        /\ method_name (this s') = method_name (this s))
    /\ (configured (this s) = true ->
        inputInfo (this s') = gst_tensors_info_init
        /\ outputInfo (this s') = gst_tensors_info_init
        /\ method_name (this s') = None)
    /\ exists s'', cleanup s' = Returns tt s''
         /\ this s'' = this s'
         /\ calls s'' = calls s' ++ [g_free None].
Proof.
  destruct (configured (this s)) eqn:Hc.
  - exists (torn_down s). split; [by apply cleanup_configured|].
    repeat (split; [done|]).
    eexists. split; [by apply cleanup_not_configured|]. done.
  - eexists. split; [by apply cleanup_not_configured|]. cbn.
    repeat (split; [done|]).
    eexists. split; [by apply cleanup_not_configured|]. done.
Qed.

(** X12.  The destructor, from any state, returns and leaves nothing owned: no
    model path, no method, not configured.  It frees the model path, frees
    the shape metadata if the instance was configured, and deletes the
    method if one is owned, each once and in this order; it deletes no
    array. *)
Theorem destructor_releases_everything_once (s : state) :
  exists s',
    delete_executorch_subplugin s = Returns tt s'
    /\ configured (this s') = false
    /\ model_path (this s') = None
    /\ method (this s') = None
    /\ arrays s' = arrays s
    /\ calls s' = calls s
         ++ [g_free (model_path (this s))]
         ++ (if configured (this s)
             then [gst_tensors_info_free; gst_tensors_info_free] else [])
         ++ release_of_method (method (this s)).
Proof.
  unfold delete_executorch_subplugin. unfold mbind at 1, M_bind at 1.
  destruct (configured (this s)) eqn:Hc.
  - rewrite (cleanup_configured s Hc). unfold mbind, M_bind, torn_down. cbn.
    destruct (method (this s)); cbn; eexists; (split; [reflexivity|]); cbn;
      rewrite <- ?app_assoc, ?app_nil_r; repeat split.
  - rewrite (cleanup_not_configured s Hc). unfold mbind, M_bind. cbn.
    destruct (method (this s)) eqn:Hm; cbn; eexists; (split; [reflexivity|]);
      cbn; rewrite <- ?app_assoc, ?app_nil_r; repeat split; assumption.
Qed.

(** ** What never throws *)

Lemma never_throws_ret {A} (a : A) : never_throws (mret a).
Proof. intros s e s'. discriminate. Qed.

Lemma never_throws_abort {A} : never_throws (@abort A).
Proof. intros s e s'. discriminate. Qed.

Lemma never_throws_undefined {A} : never_throws (@undefined A).
Proof. intros s e s'. discriminate. Qed.

Lemma never_throws_get_this : never_throws get_this.
Proof. intros s e s'. discriminate. Qed.

Lemma never_throws_modify_this f : never_throws (modify_this f).
Proof. intros s e s'. discriminate. Qed.

Lemma never_throws_record c : never_throws (record c).
Proof. intros s e s'. discriminate. Qed.

Lemma never_throws_release_array id : never_throws (release_array id).
Proof. intros s e s'. discriminate. Qed.

Lemma never_throws_bind {A B} (m : M A) (k : A -> M B) :
  never_throws m -> (forall a, never_throws (k a)) -> never_throws (m ≫= k).
Proof.
  intros Hm Hk s e s'. unfold mbind, M_bind.
  specialize (Hm s). destruct (m s) as [a s1|e1 s1|s1|]; try discriminate.
  - apply Hk.
  - by destruct (Hm e1 s1).
Qed.

Lemma never_throws_ET_CHECK_MSG cond : never_throws (ET_CHECK_MSG cond).
Proof. destruct cond; [apply never_throws_ret | apply never_throws_abort]. Qed.

Lemma never_throws_checked {T} (r : Result T) : never_throws (checked r).
Proof.
  apply never_throws_bind; [apply never_throws_ET_CHECK_MSG|].
  intros _. destruct r; [apply never_throws_ret | apply never_throws_undefined].
Qed.

Lemma never_throws_assert ndebug cond : never_throws (assert ndebug cond).
Proof.
  unfold assert.
  destruct (ndebug || cond); [apply never_throws_ret | apply never_throws_abort].
Qed.

#[local] Hint Resolve never_throws_ret never_throws_abort never_throws_undefined
  never_throws_get_this never_throws_modify_this never_throws_record
  never_throws_release_array never_throws_ET_CHECK_MSG
  never_throws_checked never_throws_assert : filter.

(** Build a [never_throws] goal from the shape of the computation. *)
Ltac no_throw :=
  repeat first
    [ solve [eauto 4 with filter]
    | apply never_throws_bind; [ | intros ? ]
    | match goal with
      | |- never_throws (if ?c then _ else _) => destruct c
      | |- never_throws (match ?x with _ => _ end) => destruct x
      end ].

Lemma never_throws_cleanup : never_throws cleanup.
Proof. unfold cleanup. no_throw. Qed.

Lemma never_throws_destroy_planned_buffers planned :
  never_throws (destroy_planned_buffers planned).
Proof.
  induction planned as [|b rest IH]; cbn [destroy_planned_buffers]; no_throw.
Qed.

Lemma never_throws_assign_method m : never_throws (assign_method m).
Proof. unfold assign_method. no_throw. Qed.

Lemma never_throws_set_inputs ndebug limit eng input todo : forall i,
  never_throws (set_inputs ndebug limit eng input todo i).
Proof.
  induction todo as [|todo IH]; intros i; cbn [set_inputs];
    unfold nth_info_type, at_index; no_throw.
Qed.

Lemma never_throws_get_outputs ndebug eng output todo : forall i,
  never_throws (get_outputs ndebug eng output todo i).
Proof.
  induction todo as [|todo IH]; intros i; cbn [get_outputs];
    unfold at_index; no_throw.
Qed.

(** ** [invoke] *)

(** X13.  [invoke] throws for three reasons only: a NULL input, a NULL output, a
    method that failed to load.  It then has made no call and changed
    nothing: the state is the one it was called in. *)
Theorem invoke_throws_only_for
    (ndebug : bool) (limit : Z) (eng : Engine)
    (input output : option (list GstTensorMemory)) (s s' : state) (e : exception) :
  invoke ndebug limit eng input output s = Throws e s' ->
  s' = s
  /\ ((input = None /\ e = runtime_error "Invalid input buffer, it is NULL.")
      \/ (input <> None /\ output = None
          /\ e = runtime_error "Invalid output buffer, it is NULL.")
      \/ (input <> None /\ output <> None
          /\ (exists err, method (this s) = Some (error err))
          /\ e = runtime_error "Method is not properly initialized.")).
Proof.
  unfold invoke. destruct input as [input|]; [|intros [= <- <-]; auto].
  destruct output as [output|]; [|intros [= <- <-]; auto 6].
  unfold mbind at 1, M_bind at 1. cbn.
  destruct (method (this s)) as [[m|err]|] eqn:Hm; [| |discriminate].
  - intros H. exfalso. revert H.
    pose proof never_throws_set_inputs. pose proof never_throws_get_outputs.
    match goal with |- ?m s = _ -> _ => assert (never_throws m) as Hn end;
      [no_throw | apply Hn].
  - intros [= <- <-]. split; [reflexivity|]. right; right. eauto 6.
Qed.

Lemma invoke_throws_only_for_null_input :
  invoke false 16 healthy_engine None (Some one_memory) initial_state
    = Throws (runtime_error "Invalid input buffer, it is NULL.") initial_state
  /\ initial_state = initial_state.
Proof.
  split; [reflexivity|].
  exact (proj1 (invoke_throws_only_for false 16 healthy_engine None
                  (Some one_memory) initial_state initial_state _ eq_refl)).
Defined.

(** X14.  However [invoke] ends, it has changed nothing of the instance, allocated
    and released no array: it only made calls. *)
Theorem invoke_leaves_instance
    (ndebug : bool) (limit : Z) (eng : Engine)
    (input output : option (list GstTensorMemory)) (s s' : state) :
  final_state (invoke ndebug limit eng input output s) = Some s' ->
  this s' = this s /\ arrays s' = arrays s /\ fresh s' = fresh s
  /\ exists added, calls s' = calls s ++ added.
Proof. apply (untouched_invoke ndebug limit eng input output). Qed.

Lemma invoke_leaves_instance_configured :
  exists s',
    final_state (invoke false 16 healthy_engine (Some one_memory)
                   (Some one_memory) configured_state) = Some s'
    /\ this s' = this configured_state
    /\ arrays s' = arrays configured_state
    /\ calls s' = calls configured_state ++ [call_execute].
Proof.
  eexists. split; [vm_compute; reflexivity|].
  destruct (invoke_leaves_instance false 16 healthy_engine (Some one_memory)
              (Some one_memory) configured_state _
              ltac:(vm_compute; reflexivity)) as (Hthis & Harr & _).
  split; [exact Hthis|]. split; [exact Harr|]. reflexivity.
Defined.

Section InvokeLoops.

Variable NDEBUG : bool.
Variable limit : Z.
Variable eng : Engine.

Lemma set_inputs_run input todo : forall i s,
  (todo = 0%nat \/ Z.of_nat (i + todo) <= limit) ->
  (i + todo <= List.length input)%nat ->
  (NDEBUG = true
   \/ forall k, (i <= k < i + todo)%nat -> is_Ok (set_input eng k) = true) ->
  set_inputs NDEBUG limit eng input todo i s
  = Returns tt
      {| this := this s; arrays := arrays s; fresh := fresh s;
         calls := calls s
                  ++ input_calls (inputInfo (this s)) i (take todo (drop i input)) |}.
Proof.
  induction todo as [|todo IH]; intros i s Hlim Hlen Hok; cbn [set_inputs].
  - rewrite take_0. cbn. rewrite app_nil_r. by destruct s.
  - destruct Hlim as [|Hlim]; [discriminate|].
    destruct (lookup_lt_is_Some_2 input i) as [m Hm]; [lia|].
    unfold mbind, M_bind, nth_info_type, at_index, assert. cbn.
    destruct (Z.ltb_spec (Z.of_nat i) limit); [|lia]. cbn.
    rewrite Hm. cbn.
    assert (NDEBUG || is_Ok (set_input eng i) = true) as ->.
    { destruct Hok as [->|Hok]; [reflexivity|].
      rewrite (Hok i) by lia. apply orb_true_r. }
    cbn. rewrite IH; cbn.
    + rewrite (drop_S _ _ _ Hm). cbn. by rewrite <- app_assoc.
    + destruct todo; [by left | right; lia].
    + lia.
    + destruct Hok as [->|Hok]; [by left | right]. intros k Hk. apply Hok. lia.
Qed.

Lemma get_outputs_run output todo : forall i s,
  (i + todo <= List.length output)%nat ->
  (NDEBUG = true
   \/ forall k, (i <= k < i + todo)%nat ->
                is_Ok (set_output_data_ptr eng k) = true) ->
  get_outputs NDEBUG eng output todo i s
  = Returns tt
      {| this := this s; arrays := arrays s; fresh := fresh s;
         calls := calls s ++ output_calls i (take todo (drop i output)) |}.
Proof.
  induction todo as [|todo IH]; intros i s Hlen Hok; cbn [get_outputs].
  - rewrite take_0. cbn. rewrite app_nil_r. by destruct s.
  - destruct (lookup_lt_is_Some_2 output i) as [m Hm]; [lia|].
    unfold mbind, M_bind, at_index, assert. cbn. rewrite Hm. cbn.
    assert (NDEBUG || is_Ok (set_output_data_ptr eng i) = true) as ->.
    { destruct Hok as [->|Hok]; [reflexivity|].
      rewrite (Hok i) by lia. apply orb_true_r. }
    cbn. rewrite IH; cbn.
    + rewrite (drop_S _ _ _ Hm). cbn. rewrite <- !app_assoc. reflexivity.
    + lia.
    + destruct Hok as [->|Hok]; [by left | right]. intros k Hk. apply Hok. lia.
Qed.

End InvokeLoops.

(** X15.  When the method is loaded, the caller passes memories for every tensor
    the metadata counts, the counted inputs are within the limit of a tensor
    set, and the engine accepts every call (or assertions are compiled out),
    [invoke] returns,
    having bound the inputs by position in increasing order, then executed
    the method once, then fetched the outputs by position in increasing
    order; memories beyond the counted tensors are not looked at. *)
Theorem invoke_calls_in_order
    (ndebug : bool) (limit : Z) (eng : Engine)
    (input output : list GstTensorMemory) (s : state) (m : Method) :
  let n_in := Z.to_nat (num_tensors (inputInfo (this s))) in
  let n_out := Z.to_nat (num_tensors (outputInfo (this s))) in
  method (this s) = Some (value m) ->
  (n_in <= List.length input)%nat ->
  (n_out <= List.length output)%nat ->
  (n_in = 0%nat \/ Z.of_nat n_in <= limit) ->
  (ndebug = true
   \/ replies_ok (set_input eng) n_in
      /\ replies_ok (set_output_data_ptr eng) n_out) ->
  is_Ok (execute eng) = true ->
  invoke ndebug limit eng (Some input) (Some output) s
  = Returns tt
      {| this := this s; arrays := arrays s; fresh := fresh s;
         calls := calls s
                  ++ input_calls (inputInfo (this s)) 0 (take n_in input)
                  ++ [call_execute]
                  ++ output_calls 0 (take n_out output) |}.
Proof.
  intros n_in n_out Hm Hin Hout Hlim Hok Hexec.
  unfold invoke. unfold mbind at 1, M_bind at 1. cbn. rewrite Hm.
  unfold mbind at 1, M_bind at 1.
  rewrite set_inputs_run; fold n_in; cbn; auto.
  2:{ destruct Hok as [|[Hok _]]; [by left | right].
      intros k Hk. apply Hok. lia. }
  unfold mbind, M_bind. cbn. rewrite Hexec. cbn.
  rewrite get_outputs_run; fold n_out; cbn; auto.
  2:{ destruct Hok as [|[_ Hok]]; [by left | right].
      intros k Hk. apply Hok. lia. }
  rewrite !drop_0, <- !app_assoc. reflexivity.
Qed.

Lemma invoke_calls_in_order_two_inputs :
  invoke false 16 healthy_engine (Some three_memories) (Some three_memories)
    shaped_state
  = Returns tt
      {| this := this shaped_state; arrays := []; fresh := 0%nat;
         calls := [call_set_input 0 4096 (Some 7); call_set_input 1 8192 (Some 5);
                   call_execute;
                   call_get_output 0; call_set_output_data_ptr 0 4096] |}.
Proof.
  apply (invoke_calls_in_order false 16 healthy_engine three_memories
           three_memories shaped_state
           {| of_program := "model.pte"; of_method := "forward";
              planned_memory := [] |}).
  - reflexivity.
  - cbn. lia.
  - cbn. lia.
  - right. cbn. lia.
  - right. split; intros k _; reflexivity.
  - reflexivity.
Defined.

(** ** [configure_instance] *)

Lemma filter_g_free_allocation_of l :
  List.filter is_g_free (map allocation_of l) = [].
Proof. induction l; cbn; done. Qed.

Lemma filter_g_free_release_of l :
  List.filter is_g_free (map release_of l) = [].
Proof. induction l; cbn; done. Qed.

(** Arrays that are among those of [got] and not of them: none. *)
Lemma released_arrays (arr : list (nat * Z)) got :
  (forall a, a ∈ arr -> a ∈ map array_of got /\ a.1 ∉ map span_array got) ->
  arr = [].
Proof.
  intros H. destruct arr as [|a rest]; [reflexivity|]. exfalso.
  destruct (H a) as [Hel Hnot]; [left|].
  apply list_elem_of_fmap in Hel as (sp & -> & Hsp).
  apply Hnot. apply list_elem_of_fmap. by exists sp.
Qed.

Lemma entry_state_store s :
  arrays (entry_state s) = arrays s
  /\ fresh (entry_state s) = fresh s
  /\ method (this (entry_state s)) = method (this s).
Proof. unfold entry_state. by destruct (configured (this s)). Qed.

Section ConfigureRuns.

Variable rt : Runtime.
Variable prop : GstTensorFilterProperties.

Lemma configure_verdict_entry s :
  configure_verdict rt prop (entry_state s) = configure_verdict rt prop s.
Proof.
  unfold configure_verdict. destruct (entry_state_store s) as (-> & -> & _).
  reflexivity.
Qed.

(** The kind of the outcome, on an instance that is not configured. *)
Lemma configure_verdict_not_configured (s : state) :
  configured (this s) = false ->
  ends_as (configure_instance rt prop s) (configure_verdict rt prop s).
Proof.
  intros Hc.
  unfold configure_verdict, configure_instance, try_catch.
  unfold mbind at 1 2, M_bind at 1 2. cbn. rewrite Hc.
  destruct (model_files prop !! 0%nat) as [file|]; cbn; [|exact I].
  destruct (g_file_test rt file); cbn.
  2:{ unfold mbind, M_bind. rewrite (cleanup_not_configured _ Hc). exact I. }
  unfold mbind, M_bind. cbn.
  destruct (FileDataLoader_from rt file); cbn; [|exact I].
  destruct (Program_load rt file) as [program|]; cbn; [|exact Hc].
  unfold checked, mbind, M_bind.
  destruct (get_method_name program) as [nm|]; cbn; [|exact I].
  destruct (method_meta program nm) as [meta|]; cbn; [|exact I].
  destruct (fits (new_array rt) (arrays s) (fresh s)
              (memory_planned_buffer_size meta)) eqn:Hfit; cbn.
  2:{ match goal with
      | |- context [setup_planned_buffers ?av ?sz ?p ?s1] =>
          destruct (setup_planned_buffers_refused av sz p s1 Hfit)
            as (s2 & -> & _)
      end.
      destruct (handler_rethrows bad_alloc s2) as [s3 Hs3].
      unfold mbind, M_bind in Hs3. rewrite Hs3. exact I. }
  match goal with
  | |- context [setup_planned_buffers ?av ?sz ?p ?s1] =>
      rewrite (setup_planned_buffers_fits av sz p s1 Hfit)
  end.
  cbn. unfold assign_method, mbind, M_bind. cbn.
  destruct (load_method program nm); cbn.
  2:{ destruct (method (this s)); exact I. }
  destruct (method (this s)); cbn;
    match goal with
    | |- context [destroy_planned_buffers ?p ?s2] =>
        destruct (destroy_planned_buffers_spec p s2) as (s3 & -> & Hs3 & _)
    end; cbn; rewrite Hs3; reflexivity.
Qed.

Lemma configure_verdict_holds (s : state) :
  ends_as (configure_instance rt prop s) (configure_verdict rt prop s).
Proof.
  destruct (configure_entry rt prop s) as [-> Hc].
  rewrite <- configure_verdict_entry.
  by apply configure_verdict_not_configured.
Qed.

(** The runs that give control back, with the state they end in. *)
Lemma configure_throwing s file :
  model_files prop !! 0%nat = Some file ->
  g_file_test rt file = false ->
  configure_instance rt prop s
  = Throws (invalid_argument ("Given file " ++ file ++ " is not valid"))
      {| this := set_model_path None (this (entry_state s));
         arrays := arrays (entry_state s);
         fresh := fresh (entry_state s);
         calls := calls (entry_state s)
                  ++ [g_free (model_path (this (entry_state s)))] |}.
Proof.
  intros Hfile Htest.
  destruct (configure_entry rt prop s) as [-> Hc].
  unfold configure_instance, try_catch.
  unfold mbind at 1 2, M_bind at 1 2. cbn. rewrite Hc, Hfile, Htest. cbn.
  unfold mbind, M_bind. rewrite (cleanup_not_configured _ Hc). reflexivity.
Qed.

Lemma configure_not_parsed s file err :
  model_files prop !! 0%nat = Some file ->
  g_file_test rt file = true ->
  FileDataLoader_from rt file = Ok ->
  Program_load rt file = error err ->
  configure_instance rt prop s
  = Returns tt
      {| this := set_model_path (Some file) (this (entry_state s));
         arrays := arrays (entry_state s);
         fresh := fresh (entry_state s);
         calls := calls (entry_state s)
                  ++ [g_strdup file; call_FileDataLoader_from file;
                      call_Program_load file] |}.
Proof.
  intros Hfile Htest Hloader Hprog.
  destruct (configure_entry rt prop s) as [-> Hc].
  unfold configure_instance, try_catch.
  unfold mbind at 1 2, M_bind at 1 2. cbn. rewrite Hc, Hfile, Htest. cbn.
  unfold mbind, M_bind. cbn. rewrite Hloader, Hprog. cbn.
  by rewrite <- !app_assoc.
Qed.

(** A planned buffer that the free store refuses: [std::bad_alloc] passes
    through the handler.  The arrays got before were released when the
    exception left the [try] block; the handler frees the new copy of the
    path; the method name stays the one just read. *)
Lemma configure_refused s file program nm meta :
  model_files prop !! 0%nat = Some file ->
  g_file_test rt file = true ->
  FileDataLoader_from rt file = Ok ->
  Program_load rt file = value program ->
  get_method_name program = value nm ->
  method_meta program nm = value meta ->
  fits (new_array rt) (arrays s) (fresh s) (memory_planned_buffer_size meta)
    = false ->
  let got := new_spans (fresh s)
               (allocated (new_array rt) (arrays s) (fresh s)
                  (memory_planned_buffer_size meta)) in
  exists s',
    configure_instance rt prop s = Throws bad_alloc s'
    /\ this s' = set_model_path None
                   (set_method_name (Some nm) (this (entry_state s)))
    /\ calls s' = calls (entry_state s)
                  ++ [g_strdup file; call_FileDataLoader_from file;
                      call_Program_load file]
                  ++ map allocation_of got ++ map release_of got
                  ++ [g_free (Some file)]
    /\ forall a, a ∈ arrays s' <->
                 a ∈ arrays s ++ map array_of got
                 /\ a.1 ∉ map span_array got.
Proof.
  intros Hfile Htest Hloader Hprog Hnm Hmeta.
  destruct (configure_entry rt prop s) as [-> Hc].
  destruct (entry_state_store s) as (Harr & Hfresh & _).
  rewrite <- Harr, <- Hfresh. clear Harr Hfresh.
  revert Hc. generalize (entry_state s). intros s0 Hc Hfit got.
  unfold configure_instance, try_catch.
  unfold mbind at 1 2, M_bind at 1 2. cbn. rewrite Hc, Hfile, Htest. cbn.
  unfold mbind, M_bind. cbn. rewrite Hloader, Hprog. cbn.
  unfold checked, mbind, M_bind. rewrite Hnm. cbn. rewrite Hmeta. cbn.
  match goal with
  | |- context [setup_planned_buffers ?av ?sz ?p ?s1] =>
      destruct (setup_planned_buffers_refused av sz p s1 Hfit)
        as (s2 & -> & Hthis & Hcalls & Harr)
  end.
  cbn in Hthis, Hcalls, Harr. fold got in Hcalls, Harr.
  assert (Hc2 : configured (this s2) = false) by (rewrite Hthis; exact Hc).
  fold (@mbind M _ unit unit). unfold mbind, M_bind.
  rewrite (cleanup_not_configured s2 Hc2).
  eexists. split; [reflexivity|]. cbn. rewrite Hthis, Hcalls. cbn.
  split; [reflexivity|]. split.
  - repeat (rewrite <- app_assoc; cbn). reflexivity.
  - exact Harr.
Qed.

Lemma verdict_throwing s :
  configure_verdict rt prop s = ends_throwing ->
  exists file,
    model_files prop !! 0%nat = Some file
    /\ (g_file_test rt file = false
        \/ exists program nm meta,
             g_file_test rt file = true
             /\ FileDataLoader_from rt file = Ok
             /\ Program_load rt file = value program
             /\ get_method_name program = value nm
             /\ method_meta program nm = value meta
             /\ fits (new_array rt) (arrays s) (fresh s)
                  (memory_planned_buffer_size meta) = false).
Proof.
  unfold configure_verdict.
  destruct (model_files prop !! 0%nat) as [file|]; [|discriminate].
  destruct (g_file_test rt file) eqn:Htest; [|eauto]. cbn.
  destruct (FileDataLoader_from rt file) eqn:Hl; [|discriminate]. cbn.
  destruct (Program_load rt file) as [program|] eqn:Hp; [|discriminate].
  destruct (get_method_name program) as [nm|] eqn:Hnm; [|discriminate].
  destruct (method_meta program nm) as [meta|] eqn:Hmeta; [|discriminate].
  destruct (fits (new_array rt) (arrays s) (fresh s)
              (memory_planned_buffer_size meta)) eqn:Hfit; cbn.
  - destruct (load_method program nm); discriminate.
  - intros _. exists file. split; [reflexivity|]. right.
    exists program, nm, meta. auto 10.
Qed.

Lemma verdict_unconfigured s :
  configure_verdict rt prop s = ends_unconfigured ->
  exists file err, model_files prop !! 0%nat = Some file
                   /\ g_file_test rt file = true
                   /\ FileDataLoader_from rt file = Ok
                   /\ Program_load rt file = error err.
Proof.
  unfold configure_verdict.
  destruct (model_files prop !! 0%nat) as [file|]; [|discriminate].
  destruct (g_file_test rt file) eqn:Htest; [|discriminate]. cbn.
  destruct (FileDataLoader_from rt file) eqn:Hl; [|discriminate]. cbn.
  destruct (Program_load rt file) as [program|err] eqn:Hp; [|eauto 8].
  repeat case_match; discriminate.
Qed.

(** An exception leaves [configure_instance] in one of two ways. *)
Lemma configure_throws_cases s s' e :
  configure_instance rt prop s = Throws e s' ->
  exists file,
    model_files prop !! 0%nat = Some file
    /\ ((g_file_test rt file = false
         /\ e = invalid_argument ("Given file " ++ file ++ " is not valid")
         /\ this s' = set_model_path None (this (entry_state s))
         /\ arrays s' = arrays s
         /\ calls s' = calls (entry_state s)
                       ++ [g_free (model_path (this (entry_state s)))])
        \/ (exists program nm meta,
              g_file_test rt file = true
              /\ FileDataLoader_from rt file = Ok
              /\ Program_load rt file = value program
              /\ get_method_name program = value nm
              /\ method_meta program nm = value meta
              /\ fits (new_array rt) (arrays s) (fresh s)
                   (memory_planned_buffer_size meta) = false
              /\ e = bad_alloc
              /\ this s' = set_model_path None
                             (set_method_name (Some nm) (this (entry_state s)))
              /\ let got := new_spans (fresh s)
                              (allocated (new_array rt) (arrays s) (fresh s)
                                 (memory_planned_buffer_size meta)) in
                 calls s' = calls (entry_state s)
                            ++ [g_strdup file; call_FileDataLoader_from file;
                                call_Program_load file]
                            ++ map allocation_of got ++ map release_of got
                            ++ [g_free (Some file)]
                 /\ forall a, a ∈ arrays s' <->
                              a ∈ arrays s ++ map array_of got
                              /\ a.1 ∉ map span_array got)).
Proof.
  intros Hrun.
  pose proof (configure_verdict_holds s) as Hv. rewrite Hrun in Hv.
  destruct (configure_verdict rt prop s) eqn:Hverdict; try contradiction.
  destruct (verdict_throwing s Hverdict)
    as (file & Hfile & [Htest|(program & nm & meta & Htest & Hl & Hp & Hnm
                               & Hmeta & Hfit)]);
    exists file; (split; [exact Hfile|]).
  - left. rewrite (configure_throwing s file Hfile Htest) in Hrun.
    injection Hrun as <- <-. cbn.
    destruct (entry_state_store s) as (Harr & _). auto.
  - right. exists program, nm, meta.
    destruct (configure_refused s file program nm meta Hfile Htest Hl Hp Hnm
                Hmeta Hfit) as (s2 & Hs2 & Hthis & Hcalls & Harr).
    rewrite Hs2 in Hrun. injection Hrun as <- <-.
    do 6 (split; [assumption|]). split; [reflexivity|].
    split; [exact Hthis|]. split; [exact Hcalls | exact Harr].
Qed.

End ConfigureRuns.

(** X16.  How [configure_instance] ends is decided by the file system, the
    engine and the free store, whatever the instance holds: undefined when no
    model file is named; an exception when the file is not a regular file; an
    abort when the loader, the method name or the method metadata fails; an
    exception when the free store refuses a planned buffer; an abort when the
    loading of the method fails; a return that leaves the instance
    unconfigured when the file does not parse; a return that leaves it
    configured otherwise. *)
Theorem configure_ends_as_verdict
    (rt : Runtime) (prop : GstTensorFilterProperties) (s : state) :
  ends_as (configure_instance rt prop s) (configure_verdict rt prop s).
Proof.
  destruct (configure_entry rt prop s) as [Heq Hc]. rewrite Heq.
  rewrite <- (configure_verdict_entry rt prop s).
  exact (configure_verdict_not_configured rt prop (entry_state s) Hc).
Qed.

(** The first of the two: a path that names no regular file, on a configured
    instance. *)
Example configure_throws_on_missing_file :
  exists s',
    configure_instance sample_runtime (prop_of "missing.pte") configured_state
      = Throws (invalid_argument "Given file missing.pte is not valid") s'
    /\ configured (this s') = false
    /\ model_path (this s') = None
    /\ method (this s') = method (this configured_state)
    /\ calls s' = calls configured_state
                  ++ [g_free (Some "model.pte"%string);
                      gst_tensors_info_free; gst_tensors_info_free;
                      g_free None].
Proof. eexists. split; [vm_compute; reflexivity|]. repeat split. Qed.

(** X17.  [configure_instance] throws for two reasons only.  Either the named
    model file is not a regular file: the exception is [invalid_argument],
    and after the teardown of a configured instance the only call is the
    [g_free] of the handler's [cleanup].  Or the file loads and parses, its
    first method has a name and metadata, and the free store refuses one of
    the planned buffers: the exception is [std::bad_alloc], the arrays got
    before it were released, and the handler freed the new copy of the path.
    Either way the instance is left not configured and without model path,
    its [method] as it was; the method of the program was not loaded. *)
Theorem configure_throws_for_two_reasons
    (rt : Runtime) (prop : GstTensorFilterProperties) (s s' : state)
    (e : exception) :
  configure_instance rt prop s = Throws e s' ->
  exists file,
    model_files prop !! 0%nat = Some file
    /\ configured (this s') = false
    /\ model_path (this s') = None
    /\ method (this s') = method (this s)
    /\ (forall nm, call_load_method nm ∉ drop (List.length (calls s)) (calls s'))
    /\ ((g_file_test rt file = false
         /\ e = invalid_argument ("Given file " ++ file ++ " is not valid")
         /\ arrays s' = arrays s
         /\ calls s' = calls (entry_state s)
                       ++ [g_free (model_path (this (entry_state s)))])
        \/ (exists program nm meta,
              g_file_test rt file = true
              /\ FileDataLoader_from rt file = Ok
              /\ Program_load rt file = value program
              /\ get_method_name program = value nm
              /\ method_meta program nm = value meta
              /\ fits (new_array rt) (arrays s) (fresh s)
                   (memory_planned_buffer_size meta) = false
              /\ e = bad_alloc
              /\ method_name (this s') = Some nm
              /\ let got := new_spans (fresh s)
                              (allocated (new_array rt) (arrays s) (fresh s)
                                 (memory_planned_buffer_size meta)) in
                 calls s' = calls (entry_state s)
                            ++ [g_strdup file; call_FileDataLoader_from file;
                                call_Program_load file]
                            ++ map allocation_of got ++ map release_of got
                            ++ [g_free (Some file)]
                 /\ forall a, a ∈ arrays s' <->
                              a ∈ arrays s ++ map array_of got
                              /\ a.1 ∉ map span_array got)).
Proof.
  intros Hrun.
  destruct (configure_entry rt prop s) as [_ Hc].
  destruct (entry_state_store s) as (_ & _ & Hm).
  assert (Hpre : exists pre, calls (entry_state s) = calls s ++ pre
                   /\ forall nm, call_load_method nm ∉ pre).
  { unfold entry_state. destruct (configured (this s)).
    - eexists. split; [reflexivity|]. intros nm.
      rewrite !not_elem_of_cons. repeat split; try discriminate.
      apply not_elem_of_nil.
    - exists []. split; [by rewrite app_nil_r|]. intros nm. apply not_elem_of_nil. }
  destruct Hpre as (pre & Hpre & Hnone).
  destruct (configure_throws_cases rt prop s s' e Hrun)
    as (file & Hfile & [(Htest & -> & Hthis & Harr & Hcalls)
                       |(program & nm & meta & Htest & Hl & Hp & Hnm & Hmeta
                         & Hfit & -> & Hthis & Hcalls & Harr)]);
    exists file; (split; [exact Hfile|]); rewrite Hthis; cbn;
    (split; [exact Hc|]); (split; [reflexivity|]); (split; [exact Hm|]).
  - split.
    + intros nm. rewrite Hcalls, Hpre, <- app_assoc, drop_app_length.
      rewrite not_elem_of_app, not_elem_of_cons. split; [apply Hnone|].
      split; [discriminate | apply not_elem_of_nil].
    + left. auto.
  - cbn zeta in Hcalls. split.
    + intros nm'. rewrite Hcalls, Hpre, <- app_assoc, drop_app_length.
      rewrite !not_elem_of_app. split; [apply Hnone|].
      split; [rewrite !not_elem_of_cons; repeat split; try discriminate;
              apply not_elem_of_nil|].
      split; [intros (sp & [=] & _)%list_elem_of_fmap|].
      split; [intros (sp & [=] & _)%list_elem_of_fmap|].
      rewrite not_elem_of_cons. split; [discriminate | apply not_elem_of_nil].
    + right. exists program, nm, meta. do 7 (split; [done|]).
      split; [reflexivity|]. split; [exact Hcalls | exact Harr].
Qed.

Lemma configure_throws_for_two_reasons_oversized :
  exists s',
    configure_instance oversized_runtime (prop_of "model.pte") initial_state
      = Throws bad_alloc s'
    /\ configured (this s') = false
    /\ model_path (this s') = None
    /\ method (this s') = None
    /\ method_name (this s') = Some "forward"%string
    /\ arrays s' = []
    /\ calls s' = [g_strdup "model.pte"; call_FileDataLoader_from "model.pte";
                   call_Program_load "model.pte";
                   make_unique_array 0 1024; delete_array 0;
                   g_free (Some "model.pte"%string)].
Proof.
  eexists. split; [vm_compute; reflexivity|].
  destruct (configure_throws_for_two_reasons oversized_runtime
              (prop_of "model.pte") initial_state _ _
              ltac:(vm_compute; reflexivity))
    as (file & _ & Hc & Hp & Hm & _ & _).
  split; [exact Hc|]. split; [exact Hp|]. split; [exact Hm|].
  repeat split.
Defined.

(** X18.  A model file that is a regular file but does not parse as a program is
    not reported: [configure_instance] returns without an exception; the
    instance is left not configured, its model path is the copy of the new
    path, its [method] is as it was, and nothing was allocated. *)
Theorem unparsed_program_returns_unconfigured
    (rt : Runtime) (prop : GstTensorFilterProperties) (s : state)
    (file : string) (err : Error) :
  model_files prop !! 0%nat = Some file ->
  g_file_test rt file = true ->
  FileDataLoader_from rt file = Ok ->
  Program_load rt file = error err ->
  exists s',
    configure_instance rt prop s = Returns tt s'
    /\ configured (this s') = false
    /\ model_path (this s') = Some file
    /\ method (this s') = method (this s)
    /\ arrays s' = arrays s
    /\ fresh s' = fresh s.
Proof.
  intros Hfile Htest Hloader Hprog.
  rewrite (configure_not_parsed rt prop s file err Hfile Htest Hloader Hprog).
  eexists. split; [reflexivity|]. cbn.
  unfold entry_state. destruct (configured (this s)) eqn:Hc; cbn; auto 10.
Qed.

Lemma unparsed_program_returns_unconfigured_after_use :
  model_files (prop_of "notes.txt") !! 0%nat = Some "notes.txt"%string
  /\ g_file_test sample_runtime "notes.txt" = true
  /\ FileDataLoader_from sample_runtime "notes.txt" = Ok
  /\ Program_load sample_runtime "notes.txt" = error (Failed 35)
  /\ exists s',
       configure_instance sample_runtime (prop_of "notes.txt") configured_state
         = Returns tt s'
       /\ configured (this s') = false
       /\ model_path (this s') = Some "notes.txt"%string
       /\ method (this s') = method (this configured_state)
       /\ arrays s' = arrays configured_state
       /\ fresh s' = fresh configured_state.
Proof.
  do 4 (split; [reflexivity|]).
  exact (unparsed_program_returns_unconfigured sample_runtime
           (prop_of "notes.txt") configured_state "notes.txt" (Failed 35)
           eq_refl eq_refl eq_refl eq_refl).
Defined.

(** X19.  When the model file is a regular file that loads and parses, has a first
    method with metadata, the free store yields every planned buffer, and
    that method loads, [configure_instance] returns with the instance
    configured: the model path is a copy of the file's, the method name is
    that of the first method, the method is the one loaded on spans of the
    declared sizes in order, and the method of a previous configuration, if
    any, was deleted. *)
Theorem configure_succeeds
    (rt : Runtime) (prop : GstTensorFilterProperties) (s : state)
    (file nm : string) (program : Program) (meta : MethodMeta) :
  model_files prop !! 0%nat = Some file ->
  g_file_test rt file = true ->
  FileDataLoader_from rt file = Ok ->
  Program_load rt file = value program ->
  get_method_name program = value nm ->
  method_meta program nm = value meta ->
  fits (new_array rt) (arrays s) (fresh s) (memory_planned_buffer_size meta)
    = true ->
  load_method program nm = Ok ->
  exists s',
    configure_instance rt prop s = Returns tt s'
    /\ configured (this s') = true
    /\ model_path (this s') = Some file
    /\ method_name (this s') = Some nm
    /\ method (this s')
       = Some (value {| of_program := file; of_method := nm;
                        planned_memory :=
                          new_spans (fresh s) (memory_planned_buffer_size meta) |})
    /\ fresh s' = (fresh s + List.length (memory_planned_buffer_size meta))%nat
    /\ exists before after,
         calls s' = calls s ++ before ++ release_of_method (method (this s)) ++ after.
Proof.
  intros Hfile Htest Hloader Hprog Hnm Hmeta Hfit Hload.
  destruct (configure_entry rt prop s) as [-> Hc].
  assert (Hfresh : fresh (entry_state s) = fresh s).
  { unfold entry_state. by destruct (configured (this s)). }
  assert (Hfit0 : fits (new_array rt) (arrays (entry_state s))
                    (fresh (entry_state s)) (memory_planned_buffer_size meta)
                  = true).
  { destruct (entry_state_store s) as (-> & -> & _). exact Hfit. }
  clear Hfit.
  assert (Hmethod : method (this (entry_state s)) = method (this s)).
  { unfold entry_state. by destruct (configured (this s)). }
  assert (Hcalls : exists pre, calls (entry_state s) = calls s ++ pre).
  { unfold entry_state. destruct (configured (this s)); [by eexists|].
    exists []. by rewrite app_nil_r. }
  destruct Hcalls as [pre Hpre].
  revert Hc Hfresh Hfit0 Hmethod Hpre. generalize (entry_state s).
  intros s0 Hc Hfresh Hfit Hmethod Hpre.
  unfold configure_instance, try_catch.
  unfold mbind at 1 2, M_bind at 1 2. cbn. rewrite Hc, Hfile, Htest. cbn.
  unfold mbind, M_bind. cbn. rewrite Hloader, Hprog. cbn.
  unfold checked, mbind, M_bind. rewrite Hnm. cbn. rewrite Hmeta. cbn.
  match goal with
  | |- context [setup_planned_buffers ?av ?sz ?p ?s1] =>
      rewrite (setup_planned_buffers_fits av sz p s1 Hfit)
  end.
  cbn. unfold assign_method, mbind, M_bind. cbn. rewrite Hload, Hmethod, Hfresh.
  destruct (method (this s)) as [old|]; cbn;
    match goal with
    | |- context [destroy_planned_buffers ?p ?s2] =>
        destruct (destroy_planned_buffers_spec p s2)
          as (s3 & -> & Hthis3 & Hfresh3 & Hcalls3 & _)
    end; cbn in Hthis3, Hfresh3, Hcalls3; exists s3; (split; [reflexivity|]);
    rewrite Hthis3, Hfresh3, Hcalls3, Hpre; cbn;
    do 5 (split; [reflexivity|]);
    exists (pre ++ [g_strdup file; call_FileDataLoader_from file;
                    call_Program_load file]
            ++ map allocation_of
                 (new_spans (fresh s) (memory_planned_buffer_size meta))
            ++ [call_load_method nm]),
           (map release_of (new_spans (fresh s) (memory_planned_buffer_size meta)));
    repeat (rewrite <- app_assoc; cbn); reflexivity.
Qed.

Lemma configure_succeeds_on_fresh_instance :
  exists s',
    configure_instance sample_runtime (prop_of "model.pte") initial_state
      = Returns tt s'
    /\ configured (this s') = true
    /\ model_path (this s') = Some "model.pte"%string
    /\ method_name (this s') = Some "forward"%string
    /\ method (this s')
       = Some (value {| of_program := "model.pte"; of_method := "forward";
                        planned_memory :=
                          [ {| span_array := 0; span_size := 1024 |};
                            {| span_array := 1; span_size := 4096 |} ] |})
    /\ fresh s' = 2%nat.
Proof.
  destruct (configure_succeeds sample_runtime (prop_of "model.pte") initial_state
              "model.pte" "forward" forward_program
              {| memory_planned_buffer_size := [1024; 4096] |}
              eq_refl eq_refl eq_refl eq_refl eq_refl eq_refl eq_refl eq_refl)
    as (s' & Hrun & Hc & Hp & Hn & Hm & Hf & _).
  exists s'. split; [exact Hrun|]. split; [exact Hc|]. split; [exact Hp|].
  split; [exact Hn|]. split; [exact Hm|exact Hf].
Defined.

(** ** A model path that is overwritten *)

Lemma nothing_freed_refl s : nothing_freed s s.
Proof. exists []. by rewrite app_nil_r. Qed.

Lemma nothing_freed_trans s1 s2 s3 :
  nothing_freed s1 s2 -> nothing_freed s2 s3 -> nothing_freed s1 s3.
Proof.
  intros (l1 & H1 & F1) (l2 & H2 & F2). exists (l1 ++ l2).
  split; [by rewrite H2, H1, app_assoc|]. by rewrite forallb_app, F1, F2.
Qed.

Lemma nothing_freed_record c :
  is_g_free c = false -> preserves nothing_freed (record c).
Proof.
  intros Hc s s' [= <-]. exists [c]. split; [reflexivity|]. cbn. by rewrite Hc.
Qed.

Lemma nothing_freed_modify_this f : preserves nothing_freed (modify_this f).
Proof. intros s s' [= <-]. exists []. cbn. by rewrite app_nil_r. Qed.

Lemma nothing_freed_make_unique av sz :
  preserves nothing_freed (make_unique av sz).
Proof.
  intros s s'. unfold make_unique. destruct (av (arrays s) sz); intros [= <-].
  - by eexists [_].
  - apply nothing_freed_refl.
Qed.

Lemma nothing_freed_release_array id : preserves nothing_freed (release_array id).
Proof. intros s s' [= <-]. by eexists [_]. Qed.

#[local] Hint Resolve nothing_freed_refl nothing_freed_trans
  preserves_ret preserves_throw preserves_abort preserves_undefined
  preserves_get_this preserves_ET_CHECK_MSG preserves_checked
  nothing_freed_modify_this nothing_freed_make_unique
  nothing_freed_release_array : filter.
#[local] Hint Extern 1 (preserves nothing_freed (record _)) =>
  apply nothing_freed_record; reflexivity : filter.

Lemma nothing_freed_destroy_planned_buffers planned :
  preserves nothing_freed (destroy_planned_buffers planned).
Proof.
  induction planned as [|b rest IH]; cbn [destroy_planned_buffers]; preserve.
Qed.

Lemma nothing_freed_setup_planned_buffers av sizes : forall planned,
  preserves nothing_freed (setup_planned_buffers av sizes planned).
Proof.
  pose proof nothing_freed_destroy_planned_buffers.
  induction sizes as [|sz rest IH]; intros planned; cbn [setup_planned_buffers];
    unfold unwinding; preserve.
Qed.

Lemma nothing_freed_assign_method m : preserves nothing_freed (assign_method m).
Proof. unfold assign_method. preserve. Qed.

Lemma filter_g_free_none l :
  forallb (fun c => negb (is_g_free c)) l = true -> List.filter is_g_free l = [].
Proof.
  induction l as [|c l IH]; cbn; [done|].
  intros [Hc Hl]%andb_prop. destruct (is_g_free c); [discriminate | auto].
Qed.

(** X20.  An instance that is not configured may still hold a model path (the one
    a file that did not parse left behind).  When it is configured with a
    regular file, the path held is overwritten by the new copy without
    having been freed: [g_free] is not called at all when the call returns
    or the process is aborted, and when the call throws (the free store
    refused a planned buffer) it is called once, by the handler, on the new
    copy. *)
Theorem held_model_path_is_not_freed
    (rt : Runtime) (prop : GstTensorFilterProperties) (s s' : state)
    (file : string) :
  configured (this s) = false ->
  model_files prop !! 0%nat = Some file ->
  g_file_test rt file = true ->
  final_state (configure_instance rt prop s) = Some s' ->
  exists added,
    calls s' = calls s ++ added
    /\ List.filter is_g_free added
       = match configure_instance rt prop s with
         | Throws _ _ => [g_free (Some file)]
         | _ => []
         end.
Proof.
  intros Hc Hfile Htest Hfinal.
  remember (configure_instance rt prop s) as o eqn:Ho.
  pose proof Ho as Hrun.
  unfold configure_instance in Ho.
  unfold mbind at 1 2, M_bind at 1 2 in Ho. cbn in Ho.
  rewrite Hc, Hfile, Htest in Ho. cbn in Ho.
  match type of Ho with
  | _ = try_catch ?body ?h ?s1 =>
      assert (Hp : preserves nothing_freed body)
  end.
  { pose proof nothing_freed_setup_planned_buffers.
    pose proof nothing_freed_destroy_planned_buffers.
    pose proof nothing_freed_assign_method. preserve. }
  unfold try_catch in Ho.
  match type of Ho with
  | _ = match ?body ?s1 with _ => _ end =>
      specialize (Hp s1); destruct (body s1) as [a s2|e s2|s2|] eqn:Hbody
  end.
  - subst o. cbn in Hfinal. injection Hfinal as <-.
    destruct (Hp s2 eq_refl) as (added & Hcalls & Hnone).
    exists added. split; [exact Hcalls | by apply filter_g_free_none].
  - destruct (handler_rethrows e s2) as [s3 Hs3]. rewrite Hs3 in Ho.
    subst o. cbn in Hfinal. injection Hfinal as <-. symmetry in Hrun.
    assert (Hentry : entry_state s = s) by (unfold entry_state; by rewrite Hc).
    destruct (configure_throws_cases rt prop s s3 e Hrun)
      as (file' & Hfile' & [(Htest' & _)
                           |(program & nm & meta & _ & _ & _ & _ & _ & _ & _
                             & _ & Hcalls & _)]);
      rewrite Hfile in Hfile'; injection Hfile' as <-; [congruence|].
    cbn zeta in Hcalls. rewrite Hentry in Hcalls.
    eexists. split; [exact Hcalls|].
    rewrite !List.filter_app, filter_g_free_allocation_of,
      filter_g_free_release_of.
    reflexivity.
  - subst o. cbn in Hfinal. injection Hfinal as <-.
    destruct (Hp s2 eq_refl) as (added & Hcalls & Hnone).
    exists added. split; [exact Hcalls | by apply filter_g_free_none].
  - subst o. discriminate.
Qed.

Lemma held_model_path_is_not_freed_after_parse_failure :
  exists s' added,
    configured (this unparsed_state) = false
    /\ model_path (this unparsed_state) = Some "notes.txt"%string
    /\ model_files (prop_of "model.pte") !! 0%nat = Some "model.pte"%string
    /\ g_file_test sample_runtime "model.pte" = true
    /\ final_state (configure_instance sample_runtime (prop_of "model.pte")
                      unparsed_state) = Some s'
    /\ model_path (this s') = Some "model.pte"%string
    /\ calls s' = calls unparsed_state ++ added
    /\ List.filter is_g_free added = [].
Proof.
  destruct (held_model_path_is_not_freed sample_runtime (prop_of "model.pte")
              unparsed_state _ "model.pte" eq_refl eq_refl eq_refl
              ltac:(vm_compute; reflexivity)) as (added & Hcalls & Hnone).
  eexists _, added. do 4 (split; [reflexivity|]).
  split; [vm_compute; reflexivity|]. split; [reflexivity|].
  split; [exact Hcalls | exact Hnone].
Defined.

(** ** Instances in use *)

Lemma consistent_initial : consistent initial_state.
Proof.
  split; cbn; try reflexivity; [intros r [=] | intros [=]].
Qed.

Lemma consistent_entry s :
  consistent s -> consistent (entry_state s).
Proof.
  intros Hs. unfold entry_state.
  destruct (configured (this s)) eqn:Hc; [|exact Hs].
  destruct Hs as [Hin Hout Harr Hm Hcm].
  split; cbn; auto. discriminate.
Qed.

Lemma consistent_configure rt prop s s' :
  consistent s ->
  continues (configure_instance rt prop s) = Some s' ->
  consistent s'.
Proof.
  intros Hs Hrun.
  pose proof (configure_verdict_holds rt prop s) as Hv.
  destruct (configure_entry rt prop s) as [Heq Hc].
  pose proof (no_array_alive s Hs) as Harr0.
  pose proof (consistent_entry s Hs) as [Hin Hout Harr Hm Hcm].
  destruct (configure_instance rt prop s) as [[] s1|e s1|s1|] eqn:Hout';
    cbn in Hrun; try discriminate; injection Hrun as ->.
  - destruct (configure_verdict rt prop s) eqn:Hverdict; try contradiction.
    + destruct (verdict_unconfigured rt prop s Hverdict)
        as (file & err & Hfile & Htest & Hl & Hp).
      rewrite (configure_not_parsed rt prop s file err Hfile Htest Hl Hp) in Hout'.
      injection Hout' as <-. split; cbn; auto. rewrite Hc. discriminate.
    + cbn in Hv. symmetry in Heq.
      destruct (configure_success_not_configured rt prop _ _ Hc Heq Hv)
        as (file & program & nm & meta & _ & _ & _ & _ & _ & _ & H).
      cbn zeta in H. destruct H as (Hthis & _ & Harr').
      split; rewrite ?Hthis; cbn; auto.
      * eapply released_arrays. intros a Ha. apply Harr' in Ha.
        rewrite Harr in Ha. exact Ha.
      * intros r [= <-]. by eexists.
      * intros _. by eexists.
  - destruct (configure_throws_cases rt prop s s' e Hout')
      as (file & Hfile & [(_ & _ & Hthis & Harr' & _)
                         |(program & nm & meta & _ & _ & _ & _ & _ & _ & _
                           & Hthis & _ & Harr')]).
    + split; rewrite ?Hthis, ?Harr'; cbn; auto. rewrite Hc. discriminate.
    + split; rewrite ?Hthis; cbn; auto.
      * eapply released_arrays. intros a Ha. apply Harr' in Ha.
        rewrite Harr0 in Ha. exact Ha.
      * rewrite Hc. discriminate.
Qed.

Lemma consistent_untouched s s' :
  consistent s -> untouched s s' -> consistent s'.
Proof.
  intros [Hin Hout Harr Hm Hcm] (Hthis & Harr' & _).
  split; rewrite ?Hthis, ?Harr'; auto.
Qed.

Lemma reachable_is_consistent (s : state) : reachable s -> consistent s.
Proof.
  induction 1 as [|rt prop s s' _ IH Hrun
                  |ndebug limit eng input output s s' _ IH Hrun].
  - apply consistent_initial.
  - eapply consistent_configure; eassumption.
  - apply (consistent_untouched s s' IH).
    apply (untouched_invoke ndebug limit eng input output s).
    by destruct (invoke ndebug limit eng input output s).
Qed.

(** X21.  On every instance in use, whatever was configured and invoked before and
    however those calls ended: the input and output metadata count no tensor,
    no planned buffer is alive, a method that is owned is a loaded one, and a
    configured instance owns the method of the model its path names. *)
Theorem reachable_consistent (s : state) :
  reachable s ->
  inputInfo (this s) = gst_tensors_info_init
  /\ outputInfo (this s) = gst_tensors_info_init
  /\ arrays s = []
  /\ (forall r, method (this s) = Some r -> exists m, r = value m)
  /\ (configured (this s) = true ->
      exists m, method (this s) = Some (value m)
                /\ model_path (this s) = Some (of_program m)
                /\ method_name (this s) = Some (of_method m)).
Proof.
  intros Hs. destruct (reachable_is_consistent s Hs) as [Hin Hout Harr Hm Hcm].
  split; [exact Hin|]. split; [exact Hout|]. split; [exact Harr|].
  split; [exact Hm | exact Hcm].
Qed.

Lemma reachable_configured_state : reachable configured_state.
Proof.
  apply (reach_configure sample_runtime (prop_of "model.pte") initial_state);
    [apply reach_new | vm_compute; reflexivity].
Qed.

Lemma reachable_consistent_configured_state :
  reachable configured_state
  /\ inputInfo (this configured_state) = gst_tensors_info_init
  /\ arrays configured_state = []
  /\ exists m, method (this configured_state) = Some (value m)
               /\ model_path (this configured_state) = Some (of_program m).
Proof.
  split; [apply reachable_configured_state|].
  destruct (reachable_consistent configured_state reachable_configured_state)
    as (Hin & _ & Harr & _ & Hcm).
  split; [exact Hin|]. split; [exact Harr|].
  destruct (Hcm eq_refl) as (m & Hm & Hp & _). by exists m.
Defined.

(** X22.  On an instance in use, [invoke] binds no input and fetches no output,
    whatever memories it is passed: when a method is owned the only call is
    the one that executes it, after which the call returns if the engine
    reports success and the process is aborted otherwise; when none is owned
    (the instance was never configured with success) the behaviour is
    undefined. *)
Theorem invoke_in_use_only_executes
    (ndebug : bool) (limit : Z) (eng : Engine)
    (input output : list GstTensorMemory) (s : state) :
  reachable s ->
  invoke ndebug limit eng (Some input) (Some output) s
  = match method (this s) with
    | None => Undefined
    | Some _ =>
        if is_Ok (execute eng) then Returns tt (after_call s call_execute)
        else Aborts (after_call s call_execute)
    end.
Proof.
  intros Hs. destruct (reachable_is_consistent s Hs) as [Hin Hout _ Hm _].
  unfold invoke. unfold mbind at 1, M_bind at 1. cbn.
  destruct (method (this s)) as [r|] eqn:Hr; [|reflexivity].
  destruct (Hm r eq_refl) as [m ->].
  rewrite Hin, Hout. cbn. unfold mbind, M_bind. cbn.
  destruct (is_Ok (execute eng)); reflexivity.
Qed.

Lemma invoke_in_use_only_executes_configured :
  reachable configured_state
  /\ invoke false 16 healthy_engine (Some three_memories) (Some three_memories)
       configured_state
     = Returns tt (after_call configured_state call_execute).
Proof.
  split; [apply reachable_configured_state|].
  exact (invoke_in_use_only_executes false 16 healthy_engine three_memories
           three_memories configured_state reachable_configured_state).
Defined.

(** X23.  [getModelInfo] changes nothing of the instance.  Asked for anything but
    [GET_IN_OUT_INFO] it answers [-ENOENT] and leaves both arguments as they
    were; asked for [GET_IN_OUT_INFO] on an instance in use it answers 0 and
    reports metadata that count no tensor, for the inputs and for the
    outputs, also when the instance is configured. *)
Theorem getModelInfo_in_use
    (ops : model_info_ops) (in_info out_info : GstTensorsInfo) (s : state) :
  reachable s ->
  getModelInfo ops in_info out_info s
  = match ops with
    | GET_IN_OUT_INFO =>
        Returns (0, gst_tensors_info_init, gst_tensors_info_init) s
    | SET_INPUT_INFO => Returns (- ENOENT, in_info, out_info) s
    end.
Proof.
  intros Hs. destruct (reachable_is_consistent s Hs) as [Hin Hout _ _ _].
  destruct ops; [|reflexivity].
  unfold getModelInfo, mbind, M_bind, gst_tensors_info_copy. cbn.
  by rewrite Hin, Hout.
Qed.

Lemma getModelInfo_in_use_configured :
  reachable configured_state
  /\ getModelInfo GET_IN_OUT_INFO (inputInfo (this shaped_state))
       (outputInfo (this shaped_state)) configured_state
     = Returns (0, gst_tensors_info_init, gst_tensors_info_init) configured_state.
Proof.
  split; [apply reachable_configured_state|].
  exact (getModelInfo_in_use GET_IN_OUT_INFO (inputInfo (this shaped_state))
           (outputInfo (this shaped_state)) configured_state
           reachable_configured_state).
Defined.

End FilterExtra.
